(** * AI Risk Mapping Bot: a shallow embedding of [app.py]

    The application is one Streamlit script.  It builds a prompt from a
    free-text security finding, sends it to a generative model, cleans the
    returned text (whitespace and code fences), decodes it with
    [json.loads] and renders six fields or an error banner.

    Python strings are sequences of Unicode code points, so [str] is
    [list N]; the values produced by [json.loads] are modelled by [value];
    exceptions are explicit ([outcome]); the local variable [raw_text] of
    [get_risk_mapping] lives in an explicit frame, because the exception
    handler reads whatever the [try] block left in it. *)

From Stdlib Require Import String Ascii DecimalString.
From Stdlib Require Import List NArith ZArith Arith Bool Lia.
Import ListNotations.

Open Scope N_scope.
Open Scope list_scope.

(** ** Python strings *)

Definition str := list N.

Definition ch (a : ascii) : N := N_of_ascii a.

Fixpoint lit (s : string) : str :=
  match s with
  | EmptyString => []
  | String a r => ch a :: lit r
  end.

Definition quote : N := 34.
Definition newline : N := 10.

(** [dq] writes a text that contains double quotes: every apostrophe of
    the literal stands for a double quote. *)
Definition dq (s : string) : str :=
  map (fun c => if c =? 39 then quote else c) (lit s).

Fixpoint str_eqb (a b : str) : bool :=
  match a, b with
  | [], [] => true
  | x :: a', y :: b' => (x =? y) && str_eqb a' b'
  | _, _ => false
  end.

(** [s.startswith(prefix)] *)
Fixpoint startswith (s prefix : str) : bool :=
  match prefix, s with
  | [], _ => true
  | p :: prefix', c :: s' => (c =? p) && startswith s' prefix'
  | _ :: _, [] => false
  end.

(** [needle in s] for two strings *)
Fixpoint str_contains (s needle : str) : bool :=
  startswith s needle ||
  match s with
  | [] => false
  | _ :: s' => str_contains s' needle
  end.

Fixpoint lstrip_while (p : N -> bool) (s : str) : str :=
  match s with
  | [] => []
  | c :: r => if p c then lstrip_while p r else s
  end.

Definition rstrip_while (p : N -> bool) (s : str) : str :=
  rev (lstrip_while p (rev s)).

Definition strip_while (p : N -> bool) (s : str) : str :=
  rstrip_while p (lstrip_while p s).

(** The code points for which [str.isspace] holds; [str.strip()] removes
    exactly these from both ends. *)
Definition isspace (c : N) : bool :=
  ((9 <=? c) && (c <=? 13)) || ((28 <=? c) && (c <=? 32)) ||
  (c =? 133) || (c =? 160) || (c =? 5760) ||
  ((8192 <=? c) && (c <=? 8202)) || (c =? 8232) || (c =? 8233) ||
  (c =? 8239) || (c =? 8287) || (c =? 12288).

(** [s.strip()] *)
Definition strip (s : str) : str := strip_while isspace s.

Definition mem_char (chars : str) (c : N) : bool := existsb (N.eqb c) chars.

(** [s.strip(chars)]: [chars] is a set of characters, not a prefix. *)
Definition strip_chars (s chars : str) : str := strip_while (mem_char chars) s.

(** [s[:n]] *)
Definition slice_to (n : nat) (s : str) : str := firstn n s.

Definition decimal (n : nat) : str := lit (NilZero.string_of_uint (Nat.to_uint n)).

(** ** Python values and exceptions *)

(** A float is kept as the text handed to [float()], or as one of the
    three constants the decoder accepts. *)
Inductive float_lit :=
| FloatText (text : str)
| FloatNaN
| FloatInf
| FloatNegInf.

#[warnings="-register-all"]
Inductive value :=
| VNone
| VBool (b : bool)
| VInt (z : Z)
| VFloat (f : float_lit)
| VStr (s : str)
| VList (xs : list value)
| VDict (items : list (str * value)).

(** Dictionaries keep insertion order; assigning an existing key updates
    it in place. *)
Fixpoint dict_set (d : list (str * value)) (k : str) (v : value) : list (str * value) :=
  match d with
  | [] => [(k, v)]
  | (k', v') :: d' => if str_eqb k' k then (k', v) :: d' else (k', v') :: dict_set d' k v
  end.

Fixpoint dict_lookup (d : list (str * value)) (k : str) : option value :=
  match d with
  | [] => None
  | (k', v) :: d' => if str_eqb k' k then Some v else dict_lookup d' k
  end.

(** [k in d] *)
Definition dict_contains (d : list (str * value)) (k : str) : bool :=
  match dict_lookup d k with Some _ => true | None => false end.

(** [d.get(k, default)] *)
Definition dict_get (d : list (str * value)) (k : str) (default : value) : value :=
  match dict_lookup d k with Some v => v | None => default end.

Inductive exn_class :=
| JSONDecodeError
| ValueError
| RecursionError
| UnboundLocalError
| TypeError
| AttributeError
| KeyError
| APIError.

(** An exception with the text [str(e)] gives. *)
Record exn := Exn { exn_type : exn_class; exn_str : str }.

Inductive outcome (A : Type) :=
| Return (a : A)
| Raise (e : exn).
Arguments Return {A} a.
Arguments Raise {A} e.

(** ** The JSON decoder ([json.loads])

    The decoder follows the standard library's scanner: whitespace is
    space, tab, line feed and carriage return; the constants [NaN],
    [Infinity] and [-Infinity] are accepted; strings are scanned in strict
    mode.  The scanner works on the text that remains to be read; an
    error remembers how many characters remained where it occurred, from
    which [json_loads] computes the position that the message reports.
    The interpreter's recursion limit is not modelled. *)

Inductive scan_error :=
| StopIteration (remaining : nat)
| DecodeError (msg : string) (remaining : nat)
| IntDigitsLimit (digits : nat).

Inductive scan_result (A : Type) :=
| Scanned (a : A) (rest : str)
| ScanFail (e : scan_error)
| OutOfFuel.
Arguments Scanned {A} a rest.
Arguments ScanFail {A} e.
Arguments OutOfFuel {A}.

Definition is_json_ws (c : N) : bool :=
  (c =? 32) || (c =? 9) || (c =? 10) || (c =? 13).

Definition skip_ws (s : str) : str := lstrip_while is_json_ws s.

Definition is_digit (c : N) : bool := (48 <=? c) && (c <=? 57).

Fixpoint span_digits (s : str) : str * str :=
  match s with
  | c :: r =>
      if is_digit c then let (ds, rest) := span_digits r in (c :: ds, rest)
      else ([], s)
  | [] => ([], [])
  end.

Definition hex_digit (c : N) : option N :=
  if is_digit c then Some (c - 48)
  else if (97 <=? c) && (c <=? 102) then Some (c - 87)
  else if (65 <=? c) && (c <=? 70) then Some (c - 55)
  else None.

Definition hex4 (a b c d : N) : option N :=
  match hex_digit a, hex_digit b, hex_digit c, hex_digit d with
  | Some x, Some y, Some z, Some w => Some (((x * 16 + y) * 16 + z) * 16 + w)
  | _, _, _, _ => None
  end.

Definition is_high_surrogate (c : N) : bool := (55296 <=? c) && (c <=? 56319).
Definition is_low_surrogate (c : N) : bool := (56320 <=? c) && (c <=? 57343).
Definition join_surrogates (hi lo : N) : N :=
  65536 + N.lor (N.shiftl (hi - 55296) 10) (lo - 56320).

(** The character a one-letter escape stands for. *)
Definition simple_escape (c : N) : option N :=
  if c =? quote then Some quote
  else if c =? 92 then Some 92
  else if c =? 47 then Some 47
  else if c =? 98 then Some 8
  else if c =? 102 then Some 12
  else if c =? 110 then Some 10
  else if c =? 114 then Some 13
  else if c =? 116 then Some 9
  else None.

(** [scanstring s begin acc] reads a string body; [s] starts after the
    opening quote, [begin] is what remained at that quote and [acc] holds
    the characters decoded so far, last one first. *)
Fixpoint scanstring (s : str) (begin : nat) (acc : str) {struct s} : scan_result str :=
  match s with
  | [] => ScanFail (DecodeError "Unterminated string starting at" begin)
  | c :: r =>
      if c =? quote then Scanned (rev acc) r
      else if c =? 92 then
        match r with
        | [] => ScanFail (DecodeError "Unterminated string starting at" begin)
        | e :: r1 =>
            if e =? 117 then
              match r1 with
              | h1 :: h2 :: h3 :: h4 :: r2 =>
                  match r2 with
                  | [] => ScanFail (DecodeError "Invalid \uXXXX escape" (length r))
                  | _ :: _ =>
                      match hex4 h1 h2 h3 h4 with
                      | None => ScanFail (DecodeError "Invalid \uXXXX escape" (length r))
                      | Some u =>
                          match r2 with
                          | b :: r3 =>
                              match r3 with
                              | e2 :: g1 :: g2 :: g3 :: g4 :: r4 =>
                                  match r4 with
                                  | _ :: _ =>
                                      if is_high_surrogate u && (b =? 92) && (e2 =? 117) then
                                        match hex4 g1 g2 g3 g4 with
                                        | None =>
                                            ScanFail (DecodeError "Invalid \uXXXX escape" (length r3))
                                        | Some u2 =>
                                            if is_low_surrogate u2
                                            then scanstring r4 begin (join_surrogates u u2 :: acc)
                                            else scanstring r2 begin (u :: acc)
                                        end
                                      else scanstring r2 begin (u :: acc)
                                  | [] => scanstring r2 begin (u :: acc)
                                  end
                              | _ => scanstring r2 begin (u :: acc)
                              end
                          | [] => scanstring r2 begin (u :: acc)
                          end
                      end
                  end
              | _ => ScanFail (DecodeError "Invalid \uXXXX escape" (length r))
              end
            else
              match simple_escape e with
              | Some c' => scanstring r1 begin (c' :: acc)
              | None => ScanFail (DecodeError "Invalid \escape" (length s))
              end
        end
      else if c <=? 31 then ScanFail (DecodeError "Invalid control character at" (length s))
      else scanstring r begin (c :: acc)
  end.

(** [strip_prefix p s] is what follows [p] in [s], when [s] starts with [p]. *)
Fixpoint strip_prefix (p s : str) : option str :=
  match p, s with
  | [], _ => Some s
  | x :: p', c :: s' => if c =? x then strip_prefix p' s' else None
  | _ :: _, [] => None
  end.

Definition scan_constant (s : str) : option (value * str) :=
  match strip_prefix (lit "null") s with
  | Some r => Some (VNone, r)
  | None =>
  match strip_prefix (lit "true") s with
  | Some r => Some (VBool true, r)
  | None =>
  match strip_prefix (lit "false") s with
  | Some r => Some (VBool false, r)
  | None =>
  match strip_prefix (lit "NaN") s with
  | Some r => Some (VFloat FloatNaN, r)
  | None =>
  match strip_prefix (lit "Infinity") s with
  | Some r => Some (VFloat FloatInf, r)
  | None =>
  match strip_prefix (lit "-Infinity") s with
  | Some r => Some (VFloat FloatNegInf, r)
  | None => None
  end end end end end end.

(** The integer part of a number: an optional minus sign, then [0] or a
    digit from 1 to 9 followed by digits. *)
Definition scan_int_part (s : str) : option (str * str) :=
  let (sign, s1) :=
    match s with
    | c :: r => if c =? 45 then ([c], r) else ([], s)
    | [] => ([], s)
    end in
  match s1 with
  | c :: r =>
      if c =? 48 then Some (sign ++ [c], r)
      else if is_digit c then
        let (ds, rest) := span_digits r in Some (sign ++ c :: ds, rest)
      else None
  | [] => None
  end.

(** A fraction is a dot followed by at least one digit. *)
Definition scan_frac (s : str) : str * str :=
  match s with
  | c :: d :: r =>
      if (c =? 46) && is_digit d then
        let (ds, rest) := span_digits r in (c :: d :: ds, rest)
      else ([], s)
  | _ => ([], s)
  end.

(** An exponent is [e] or [E], an optional sign and at least one digit;
    without a digit nothing is consumed. *)
Definition scan_exp (s : str) : str * str :=
  match s with
  | c :: r =>
      if (c =? 101) || (c =? 69) then
        let (sign, r1) :=
          match r with
          | g :: r' => if (g =? 43) || (g =? 45) then ([g], r') else ([], r)
          | [] => ([], r)
          end in
        match span_digits r1 with
        | ([], _) => ([], s)
        | (ds, rest) => (c :: sign ++ ds, rest)
        end
      else ([], s)
  | [] => ([], s)
  end.

(** [int(text)] for a text made of an optional minus sign and digits. *)
Definition int_of_digits (text : str) : Z :=
  let digits_value ds := fold_left (fun acc c => (acc * 10 + Z.of_N (c - 48))%Z) ds 0%Z in
  match text with
  | c :: r => if c =? 45 then (- digits_value r)%Z else digits_value text
  | [] => 0%Z
  end.

Definition int_max_str_digits : nat := 4300.

Definition count_digits (text : str) : nat :=
  List.length (filter is_digit text).

Definition match_number (s : str) : scan_result value :=
  match scan_int_part s with
  | None => ScanFail (StopIteration (length s))
  | Some (integer, r1) =>
      let (frac, r2) := scan_frac r1 in
      let (exp, r3) := scan_exp r2 in
      match frac, exp with
      | [], [] =>
          if (int_max_str_digits <? count_digits integer)%nat
          then ScanFail (IntDigitsLimit (count_digits integer))
          else Scanned (VInt (int_of_digits integer)) r3
      | _, _ => Scanned (VFloat (FloatText (integer ++ frac ++ exp))) r3
      end
  end.

Definition map_scanned {A B : Type} (f : A -> B) (r : scan_result A) : scan_result B :=
  match r with
  | Scanned a rest => Scanned (f a) rest
  | ScanFail e => ScanFail e
  | OutOfFuel => OutOfFuel
  end.

(** The elements of a non-empty array; [s] stands at the first element.
    As in the library, the scanner for the elements is a parameter.
    [n] bounds the number of iterations. *)
Fixpoint array_loop (scan : str -> scan_result value) (n : nat) (s : str)
  (acc : list value) {struct n} : scan_result value :=
  match n with
  | O => OutOfFuel
  | S n' =>
      match scan s with
      | Scanned v r1 =>
          match skip_ws r1 with
          | c :: r2 =>
              if c =? 93 then Scanned (VList (acc ++ [v])) r2
              else if c =? 44 then array_loop scan n' (skip_ws r2) (acc ++ [v])
              else ScanFail (DecodeError "Expecting ',' delimiter" (length (c :: r2)))
          | [] => ScanFail (DecodeError "Expecting ',' delimiter" 0)
          end
      | ScanFail e => ScanFail e
      | OutOfFuel => OutOfFuel
      end
  end.

(** The members of a non-empty object; [s] stands at the first key. *)
Fixpoint object_loop (scan : str -> scan_result value) (n : nat) (s : str)
  (acc : list (str * value)) {struct n} : scan_result value :=
  match n with
  | O => OutOfFuel
  | S n' =>
      match s with
      | c :: r =>
          if c =? quote then
            match scanstring r (length s) [] with
            | Scanned key r1 =>
                match skip_ws r1 with
                | c1 :: r2 =>
                    if c1 =? 58 then
                      match scan (skip_ws r2) with
                      | Scanned v r3 =>
                          match skip_ws r3 with
                          | c2 :: r4 =>
                              if c2 =? 125 then Scanned (VDict (dict_set acc key v)) r4
                              else if c2 =? 44
                              then object_loop scan n' (skip_ws r4) (dict_set acc key v)
                              else ScanFail (DecodeError "Expecting ',' delimiter" (length (c2 :: r4)))
                          | [] => ScanFail (DecodeError "Expecting ',' delimiter" 0)
                          end
                      | ScanFail e => ScanFail e
                      | OutOfFuel => OutOfFuel
                      end
                    else ScanFail (DecodeError "Expecting ':' delimiter" (length (c1 :: r2)))
                | [] => ScanFail (DecodeError "Expecting ':' delimiter" 0)
                end
            | ScanFail e => ScanFail e
            | OutOfFuel => OutOfFuel
            end
          else ScanFail (DecodeError "Expecting property name enclosed in double quotes" (length s))
      | [] => ScanFail (DecodeError "Expecting property name enclosed in double quotes" 0)
      end
  end.

(** [scan_once depth s] reads one JSON value at the head of [s]; [depth]
    bounds the nesting of arrays and objects. *)
Fixpoint scan_once (depth : nat) (s : str) {struct depth} : scan_result value :=
  match depth with
  | O => OutOfFuel
  | S depth' =>
      match s with
      | [] => ScanFail (StopIteration 0)
      | c :: r =>
          if c =? quote then map_scanned VStr (scanstring r (length s) [])
          else if c =? 123 then
            match skip_ws r with
            | c1 :: r1 =>
                if c1 =? 125 then Scanned (VDict []) r1
                else object_loop (scan_once depth') (length s) (c1 :: r1) []
            | [] => object_loop (scan_once depth') (length s) [] []
            end
          else if c =? 91 then
            match skip_ws r with
            | c1 :: r1 =>
                if c1 =? 93 then Scanned (VList []) r1
                else array_loop (scan_once depth') (length s) (c1 :: r1) []
            | [] => array_loop (scan_once depth') (length s) [] []
            end
          else
            match scan_constant s with
            | Some (v, rest) => Scanned v rest
            | None => match_number s
            end
      end
  end.

(** [JSONDecodeError(msg, doc, pos)]: the text of the exception names the
    line, the column and the position. *)
Definition count_newlines (s : str) : nat :=
  List.length (filter (N.eqb newline) s).

(** Number of characters after the last line feed of [s] (all of [s]
    when it has none). *)
Fixpoint since_last_newline (s : str) (n : nat) : nat :=
  match s with
  | [] => n
  | c :: r => if c =? newline then since_last_newline r 0 else since_last_newline r (S n)
  end.

Definition json_decode_error (msg : string) (doc : str) (pos : nat) : exn :=
  let before := firstn pos doc in
  let lineno := S (count_newlines before) in
  let colno := S (since_last_newline before 0) in
  Exn JSONDecodeError
      (lit msg ++ lit ": line " ++ decimal lineno ++ lit " column " ++ decimal colno
           ++ lit " (char " ++ decimal pos ++ lit ")").

Definition int_digits_error (digits : nat) : exn :=
  Exn ValueError
      (lit "Exceeds the limit (" ++ decimal int_max_str_digits
           ++ lit " digits) for integer string conversion: value has " ++ decimal digits
           ++ lit " digits; use sys.set_int_max_str_digits() to increase the limit").

Definition recursion_error : exn :=
  Exn RecursionError (lit "maximum recursion depth exceeded while decoding a JSON object from a unicode string").

Definition scan_error_exn (doc : str) (e : scan_error) : exn :=
  match e with
  | StopIteration remaining => json_decode_error "Expecting value" doc (length doc - remaining)
  | DecodeError msg remaining => json_decode_error msg doc (length doc - remaining)
  | IntDigitsLimit digits => int_digits_error digits
  end.

Definition byte_order_mark : N := 65279.

(** [json.loads(s)] for a text [s]. *)
Definition json_loads (s : str) : outcome value :=
  if startswith s [byte_order_mark]
  then Raise (json_decode_error "Unexpected UTF-8 BOM (decode using utf-8-sig)" s 0)
  else
    match scan_once (S (length s)) (skip_ws s) with
    | Scanned obj rest =>
        match skip_ws rest with
        | [] => Return obj
        | extra => Raise (json_decode_error "Extra data" s (length s - length extra))
        end
    | ScanFail e => Raise (scan_error_exn s e)
    | OutOfFuel => Raise recursion_error
    end.


(** ** The response schema *)

Record Schema_field := { field_type : str; field_description : str }.

Record Schema := {
  schema_type : str;
  schema_properties : list (str * Schema_field);
  schema_required : list str
}.

Definition RISK_SCHEMA : Schema := {|
  schema_type := lit "OBJECT";
  schema_properties :=
    [ (lit "finding_summary",
       {| field_type := lit "STRING";
          field_description := lit "A one-sentence summary of the security finding." |});
      (lit "mitre_tactic",
       {| field_type := lit "STRING";
          field_description := lit "The most probable MITRE ATT&CK Tactic name." |});
      (lit "mitre_technique",
       {| field_type := lit "STRING";
          field_description :=
            lit "The most probable MITRE ATT&CK Technique ID and name (e.g., T1078.001 - Valid Accounts)." |});
      (lit "nist_function",
       {| field_type := lit "STRING";
          field_description :=
            lit "The most relevant NIST CSF Function (Identify, Protect, Detect, Respond, Recover)." |});
      (lit "nist_category",
       {| field_type := lit "STRING";
          field_description := lit "The most relevant NIST CSF Category." |});
      (lit "remediation_suggestion",
       {| field_type := lit "STRING";
          field_description := lit "A high-level, actionable remediation strategy." |}) ];
  schema_required :=
    [ lit "finding_summary"; lit "mitre_tactic"; lit "mitre_technique";
      lit "nist_function"; lit "nist_category"; lit "remediation_suggestion" ]
|}.

(** ** The model client *)

Record request := {
  model : str;
  contents : str;
  response_mime_type : str;
  response_schema : Schema
}.

(** An answer that carries a text part: [response.text] is a string. *)
Record response := { text : str }.

(** What [generate_content] returns: an answer with a text part, or an
    answer without one, for which [response.text] is [None]. *)
Inductive answer :=
| WithText (resp : response)
| NoText.

(** [client.models.generate_content]: the remote call either raises or
    returns an answer. *)
Record Client := { generate_content : request -> outcome answer }.

(** ** [get_risk_mapping] *)

(** The frame of one call: the local variable [raw_text], unbound until
    it is assigned, and the requests sent to the model so far. *)
Record frame := { raw_text : option str; sent : list request }.

Class Monad (m : Type -> Type) := {
  ret : forall {A : Type}, A -> m A;
  bind : forall {A B : Type}, m A -> (A -> m B) -> m B
}.

Notation "x <- c ;; k" := (bind c (fun x => k))
  (at level 61, c at next level, right associativity).
Notation "c ;; k" := (bind c (fun _ => k))
  (at level 61, right associativity).

Definition M (A : Type) : Type := frame -> outcome A * frame.

#[export] Instance M_monad : Monad M := {|
  ret := fun A (a : A) f => (Return a, f);
  bind := fun A B (c : M A) (k : A -> M B) f =>
    match c f with
    | (Return a, f') => k a f'
    | (Raise e, f') => (Raise e, f')
    end
|}.

Definition lift {A : Type} (o : outcome A) : M A := fun f => (o, f).

(** [try: body except Exception as e: handler e]; the handler runs in the
    frame the body left behind. *)
Definition try_except {A : Type} (body : M A) (handler : exn -> M A) : M A :=
  fun f =>
    match body f with
    | (Return a, f') => (Return a, f')
    | (Raise e, f') => handler e f'
    end.

Definition unbound_local (name : string) : exn :=
  Exn UnboundLocalError
      (lit "cannot access local variable '" ++ lit name
           ++ lit "' where it is not associated with a value").

(** Reading [raw_text] *)
Definition get_raw_text : M str :=
  fun f =>
    match raw_text f with
    | Some s => (Return s, f)
    | None => (Raise (unbound_local "raw_text"), f)
    end.

(** [raw_text = s] *)
Definition set_raw_text (s : str) : M unit :=
  fun f => (Return tt, {| raw_text := Some s; sent := sent f |}).

Definition send (client : Client) (req : request) : M answer :=
  fun f => (generate_content client req, {| raw_text := raw_text f; sent := sent f ++ [req] |}).

Definition MASTER_PROMPT (finding_text : str) : str :=
  [newline]
  ++ lit "You are a highly experienced Security Engineer and Risk Consultant." ++ [newline]
  ++ lit "Your TASK is to analyze the raw security finding provided below and map it to common security frameworks and controls." ++ [newline]
  ++ lit "Your entire response must STRICTLY adhere to the JSON schema provided in the configuration." ++ [newline]
  ++ [newline]
  ++ lit "Raw Security Finding to Analyze:" ++ [newline]
  ++ finding_text ++ [newline].

(** [response.text.strip()]: without a text part there is nothing to
    call [strip] on. *)
Definition text_strip (resp : answer) : outcome str :=
  match resp with
  | WithText r => Return (strip (text r))
  | NoText =>
      Raise (Exn AttributeError (lit "'NoneType' object has no attribute 'strip'"))
  end.

Definition json_fence : str := lit "```json".
Definition plain_fence : str := lit "```".

Inductive fence_branch := TaggedFence | PlainFence | NoFence.

(** Which arm of the [if] / [elif] runs for the trimmed text. *)
Definition fence_branch_of (raw : str) : fence_branch :=
  if startswith raw json_fence then TaggedFence
  else if startswith raw plain_fence then PlainFence
  else NoFence.

(** What lines 64 to 67 leave in [raw_text]. *)
Definition strip_fences (raw : str) : str :=
  match fence_branch_of raw with
  | TaggedFence => strip_chars (strip_chars raw json_fence) plain_fence
  | PlainFence => strip_chars raw plain_fence
  | NoFence => raw
  end.

(** What [raw_text] holds when [json.loads] is called, for the text the
    model returned. *)
Definition cleaned (rawText : str) : str := strip_fences (strip rawText).

Definition error_message (details snippet : str) : str :=
  lit "AI Parsing Error: Could not get structured output. Details: " ++ details
  ++ lit ". Raw Response (start): " ++ snippet ++ lit "...".

Definition error_descriptor (details snippet : str) : value :=
  VDict [(lit "error", VStr (error_message details snippet))].

Definition risk_request (prompt : str) : request := {|
  model := lit "gemini-2.5-flash";
  contents := prompt;
  response_mime_type := lit "application/json";
  response_schema := RISK_SCHEMA
|}.

Definition get_risk_mapping_body (client : Client) (finding_text : str) : M value :=
  try_except
    (resp <- send client (risk_request (MASTER_PROMPT finding_text)) ;;
     stripped <- lift (text_strip resp) ;;
     set_raw_text stripped ;;
     raw <- get_raw_text ;;
     match fence_branch_of raw with
     | TaggedFence =>
         r <- get_raw_text ;;
         set_raw_text (strip_chars (strip_chars r json_fence) plain_fence)
     | PlainFence =>
         r <- get_raw_text ;;
         set_raw_text (strip_chars r plain_fence)
     | NoFence => ret tt
     end ;;
     cleaned <- get_raw_text ;;
     lift (json_loads cleaned))
    (fun e =>
       r <- get_raw_text ;;
       ret (error_descriptor (exn_str e) (slice_to 50 r))).

Definition new_frame : frame := {| raw_text := None; sent := [] |}.

(** The result of a call and the requests it sent. *)
Definition get_risk_mapping_run (client : Client) (finding_text : str)
  : outcome value * list request :=
  let (o, f) := get_risk_mapping_body client finding_text new_frame in (o, sent f).

Definition get_risk_mapping (client : Client) (finding_text : str) : outcome value :=
  fst (get_risk_mapping_run client finding_text).

(** What the call does when it raises, or answers with a text part. *)
Definition with_text (o : outcome response) : outcome answer :=
  match o with
  | Return resp => Return (WithText resp)
  | Raise e => Raise e
  end.

(** A client that does the same for every request. *)
Definition stub_client (o : outcome response) : Client :=
  {| generate_content := fun _ => with_text o |}.

(** A client whose answers never carry a text part. *)
Definition textless_client : Client :=
  {| generate_content := fun _ => Return NoText |}.

(** ** The Streamlit script *)

(** What a widget is asked to display: literal text and the values an
    f-string interpolates (or that are passed as they are). *)
Inductive piece :=
| Lit (s : str)
| Shown (v : value).

Inductive event :=
| st_error (body : list piece)
| st_set_page_config (page_title layout : str)
| st_title (body : str)
| st_markdown (body : str)
| st_text_area (label placeholder : str) (height : nat)
| st_button (label : str)
| spinner_enter (label : str)
| spinner_exit
| model_call (req : request)
| st_subheader (body : str)
| st_caption (body : list piece)
| st_columns (n : nat)
| column_enter (i : nat)
| column_exit (i : nat)
| st_metric (label : str) (v : value)
| st_info (body : list piece)
| st_success (body : list piece).

(** How a run of the script ends: it reaches its last line, it is halted
    by [st.stop()], or an exception leaves it. *)
Inductive script_end :=
| Finished
| Stopped
| Uncaught (e : exn).

Inductive step (A : Type) :=
| Next (a : A)
| Halt (e : script_end).
Arguments Next {A} a.
Arguments Halt {A} e.

(** The events emitted so far and whether the script goes on. *)
Definition Script (A : Type) : Type := list event * step A.

#[export] Instance Script_monad : Monad Script := {|
  ret := fun A (a : A) => ([], Next a);
  bind := fun A B (c : Script A) (k : A -> Script B) =>
    match c with
    | (evs, Next a) => let (evs', r) := k a in (evs ++ evs', r)
    | (evs, Halt e) => (evs, Halt e)
    end
|}.

Definition emit (ev : event) : Script unit := ([ev], Next tt).
Definition emits (evs : list event) : Script unit := (evs, Next tt).
Definition halt {A : Type} (e : script_end) : Script A := ([], Halt e).
Definition throw {A : Type} (e : exn) : Script A := halt (Uncaught e).

Definition type_name (v : value) : string :=
  match v with
  | VNone => "NoneType"
  | VBool _ => "bool"
  | VInt _ => "int"
  | VFloat _ => "float"
  | VStr _ => "str"
  | VList _ => "list"
  | VDict _ => "dict"
  end.

Definition value_is_str (s : str) (v : value) : bool :=
  match v with
  | VStr s' => str_eqb s' s
  | _ => false
  end.

(** [key in v] for a string [key] *)
Definition py_in (key : str) (v : value) : outcome bool :=
  match v with
  | VDict d => Return (dict_contains d key)
  | VList xs => Return (existsb (value_is_str key) xs)
  | VStr s => Return (str_contains s key)
  | _ => Raise (Exn TypeError
                    (lit "argument of type '" ++ lit (type_name v) ++ lit "' is not iterable"))
  end.

Definition key_error (key : str) : exn :=
  Exn KeyError (lit "'" ++ key ++ lit "'").

(** [v[key]] for a string [key] *)
Definition py_getitem (v : value) (key : str) : outcome value :=
  match v with
  | VDict d =>
      match dict_lookup d key with
      | Some x => Return x
      | None => Raise (key_error key)
      end
  | VList _ => Raise (Exn TypeError (lit "list indices must be integers or slices, not str"))
  | VStr _ => Raise (Exn TypeError (lit "string indices must be integers, not 'str'"))
  | _ => Raise (Exn TypeError (lit "'" ++ lit (type_name v) ++ lit "' object is not subscriptable"))
  end.

(** [v.get(key, default)] *)
Definition py_get (v : value) (key : str) (default : value) : outcome value :=
  match v with
  | VDict d => Return (dict_get d key default)
  | _ => Raise (Exn AttributeError
                    (lit "'" ++ lit (type_name v) ++ lit "' object has no attribute 'get'"))
  end.

Definition eval {A : Type} (o : outcome A) : Script A :=
  match o with
  | Return a => ret a
  | Raise e => throw e
  end.

(** What one run of the script sees from outside: the outcome of
    [genai.Client()], the process environment and the widget state. *)
Record session := {
  new_client : outcome Client;
  environ : list (str * str);
  button_clicked : bool;
  user_input : str
}.

Definition environ_has (env : list (str * str)) (name : str) : bool :=
  existsb (fun kv => str_eqb (fst kv) name) env.

Definition NA : value := VStr (lit "N/A").

Definition robot : N := 129302.
Definition check_mark : N := 9989.

Definition page_header : list event :=
  [ st_set_page_config (lit "AI Risk Contextualization Engine") (lit "wide");
    st_title (robot :: lit " AI Risk Mapping Bot");
    st_markdown (lit "Enter a raw security finding to automatically map it to MITRE ATT&CK and NIST CSF.");
    st_text_area (lit "Paste Raw Security Finding Here:")
                 (lit "e.g., Account 'svc_backup' has a password that expires in 365 days, violating the 90-day policy.")
                 150;
    st_button (lit "Analyze Finding") ].

(** Lines 100 to 119: the six fields. *)
Definition render_results (mapping_data : value) : Script unit :=
  emit (st_subheader (check_mark :: lit " Analysis Results")) ;;
  summary <- eval (py_get mapping_data (lit "finding_summary") NA) ;;
  emit (st_caption [Lit (lit "**Finding Summary:** "); Shown summary]) ;;
  emit (st_markdown (lit "---")) ;;
  emit (st_columns 3) ;;
  emit (column_enter 1) ;;
  tactic <- eval (py_get mapping_data (lit "mitre_tactic") NA) ;;
  emit (st_metric (lit "MITRE ATT&CK Tactic") tactic) ;;
  technique <- eval (py_get mapping_data (lit "mitre_technique") NA) ;;
  emit (st_info [Lit (lit "**Technique:** "); Shown technique]) ;;
  emit (column_exit 1) ;;
  emit (column_enter 2) ;;
  function <- eval (py_get mapping_data (lit "nist_function") NA) ;;
  emit (st_metric (lit "NIST CSF Function") function) ;;
  category <- eval (py_get mapping_data (lit "nist_category") NA) ;;
  emit (st_info [Lit (lit "**Category:** "); Shown category]) ;;
  emit (column_exit 2) ;;
  emit (column_enter 3) ;;
  emit (st_markdown (lit "### Remediation Suggestion")) ;;
  remediation <- eval (py_get mapping_data (lit "remediation_suggestion") NA) ;;
  emit (st_success [Shown remediation]) ;;
  emit (column_exit 3) ;;
  emit (st_markdown (lit "---")).

(** Lines 94 to 119: the request is made under the spinner, then the
    result is rendered. *)
Definition analyze (client : Client) (finding : str) : Script unit :=
  emit (spinner_enter (lit "Thinking... Analyzing frameworks and controls...")) ;;
  let (o, requests) := get_risk_mapping_run client finding in
  emits (map model_call requests) ;;
  emit spinner_exit ;;
  mapping_data <- eval o ;;
  is_error <- eval (py_in (lit "error") mapping_data) ;;
  if is_error : bool then
    message <- eval (py_getitem mapping_data (lit "error")) ;;
    emit (st_error [Shown message])
  else render_results mapping_data.

Definition truthy (s : str) : bool :=
  match s with [] => false | _ :: _ => true end.

Definition app (w : session) : Script unit :=
  match new_client w with
  | Raise _ =>
      emit (st_error [Lit (lit "Error: Gemini API Client failed to initialize. Ensure GEMINI_API_KEY is set in your environment or Streamlit secrets.")]) ;;
      halt Stopped
  | Return client =>
      emits page_header ;;
      if button_clicked w && truthy (user_input w) then
        if negb (environ_has (environ w) (lit "GEMINI_API_KEY")) then
          emit (st_error [Lit (lit "API Key not found. Please set the 'GEMINI_API_KEY' environment variable and refresh.")])
        else analyze client (user_input w)
      else ret tt
  end.

(** The events of a run and how it ended. *)
Definition run (w : session) : list event * script_end :=
  match app w with
  | (evs, Next _) => (evs, Finished)
  | (evs, Halt e) => (evs, e)
  end.

(** ** Notions used to state the decoder's properties *)

(** What follows a [\uXXXX] escape that decoded to [u]: a low surrogate
    to join with, a malformed second escape, or nothing special.  This is
    the case analysis [scanstring] makes after the first escape. *)
Inductive pair_view :=
| PairJoin (u2 : N) (r4 : str)
| PairBad (r3 : str)
| PairNone.

Definition low_surrogate_view (u : N) (r2 : str) : pair_view :=
  match r2 with
  | b :: e2 :: g1 :: g2 :: g3 :: g4 :: x :: r5 =>
      if is_high_surrogate u && (b =? 92) && (e2 =? 117) then
        match hex4 g1 g2 g3 g4 with
        | None => PairBad (e2 :: g1 :: g2 :: g3 :: g4 :: x :: r5)
        | Some u2 => if is_low_surrogate u2 then PairJoin u2 (x :: r5) else PairNone
        end
      else PairNone
  | _ => PairNone
  end.

(** Characters that could continue a number. *)
Definition number_tail (c : N) : bool :=
  is_digit c || (c =? 46) || (c =? 101) || (c =? 69).

(** [t] can follow a number without changing how it is read. *)
Definition number_safe (t : str) : Prop :=
  match t with
  | [] => True
  | c :: _ => number_tail c = false
  end.

Definition no_digit_ahead (t : str) : Prop :=
  match t with
  | [] => True
  | c :: _ => is_digit c = false
  end.

(** [i] starts like a number: a digit, or a minus sign and a digit. *)
Definition number_head (i : str) : Prop :=
  match i with
  | [] => False
  | c :: i' =>
      is_digit c = true \/
      (c = 45 /\ match i' with d :: _ => is_digit d = true | [] => False end)
  end.

Definition frac_safe (t : str) : Prop :=
  match t with
  | [] => True
  | c :: _ => is_digit c || (c =? 46) = false
  end.

(** What a scanner must satisfy for the loops to inherit it: a value that
    was read is read again, by every scanner of the family with enough
    depth, when the text after it is replaced. *)
Definition scan_ext (scan : str -> scan_result value)
  (fam : nat -> str -> scan_result value) : Prop :=
  forall s v rest,
    scan s = Scanned v rest ->
    exists pre,
      s = pre ++ rest /\ pre <> [] /\
      (forall d, v = VDict d -> exists body, pre = 123 :: body ++ [125]) /\
      forall g t, (length pre <= g)%nat -> number_safe t ->
                  fam g (pre ++ t) = Scanned v t.

(** The text of a decoded document: whitespace, the value, whitespace. *)
Definition document (J : str) (v : value) (l pre r : str) : Prop :=
  J = l ++ pre ++ r /\
  forallb is_json_ws l = true /\ forallb is_json_ws r = true /\
  (exists c pre', pre = c :: pre' /\ is_json_ws c = false) /\
  (forall d, v = VDict d -> exists body, pre = 123 :: body ++ [125]) /\
  forall g t, (length pre <= g)%nat -> number_safe t ->
              scan_once g (pre ++ t) = Scanned v t.

(** ** Notions used to state the properties of the application *)

(** [x] starts and ends with a character that [q] rejects. *)
Definition clean_ends (q : N -> bool) (x : str) : Prop :=
  exists a mid b, x = a :: mid ++ [b] /\ q a = false /\ q b = false.

(** The call made by [get_risk_mapping] ended as [o] says: it raised, or
    it answered with a text part. *)
Definition answers (client : Client) (finding_text : str) (o : outcome response) : Prop :=
  generate_content client (risk_request (MASTER_PROMPT finding_text)) = with_text o.

(** The call made by [get_risk_mapping] returned an answer without a
    text part. *)
Definition answers_without_text (client : Client) (finding_text : str) : Prop :=
  generate_content client (risk_request (MASTER_PROMPT finding_text)) = Return NoText.

(** Some required key of the schema is absent from [d]. *)
Definition missing_required (d : list (str * value)) : Prop :=
  exists k, In k (schema_required RISK_SCHEMA) /\ dict_contains d k = false.

(** Every required key of the schema is present in [d] with a string. *)
Definition six_string_fields (d : list (str * value)) : Prop :=
  forall k, In k (schema_required RISK_SCHEMA) ->
            exists s, dict_lookup d k = Some (VStr s).

(** The result is the dictionary the exception handler builds. *)
Definition is_error_descriptor (o : outcome value) : Prop :=
  exists details snippet, o = Return (error_descriptor details snippet).

Definition is_st_error (ev : event) : bool :=
  match ev with st_error _ => true | _ => false end.

Definition is_model_call (ev : event) : bool :=
  match ev with model_call _ => true | _ => false end.

(** The error banner is shown during the run. *)
Definition has_banner (evs : list event) : bool := existsb is_st_error evs.

(** The events that render the six fields of a dictionary. *)
Definition results_events (d : list (str * value)) : list event :=
  [ st_subheader (check_mark :: lit " Analysis Results");
    st_caption [Lit (lit "**Finding Summary:** "); Shown (dict_get d (lit "finding_summary") NA)];
    st_markdown (lit "---");
    st_columns 3;
    column_enter 1;
    st_metric (lit "MITRE ATT&CK Tactic") (dict_get d (lit "mitre_tactic") NA);
    st_info [Lit (lit "**Technique:** "); Shown (dict_get d (lit "mitre_technique") NA)];
    column_exit 1;
    column_enter 2;
    st_metric (lit "NIST CSF Function") (dict_get d (lit "nist_function") NA);
    st_info [Lit (lit "**Category:** "); Shown (dict_get d (lit "nist_category") NA)];
    column_exit 2;
    column_enter 3;
    st_markdown (lit "### Remediation Suggestion");
    st_success [Shown (dict_get d (lit "remediation_suggestion") NA)];
    column_exit 3;
    st_markdown (lit "---") ].

(** The events around the call to the model. *)
Definition call_events (finding_text : str) : list event :=
  [ spinner_enter (lit "Thinking... Analyzing frameworks and controls...");
    model_call (risk_request (MASTER_PROMPT finding_text));
    spinner_exit ].

Definition api_key_banner : event :=
  st_error [Lit (lit "API Key not found. Please set the 'GEMINI_API_KEY' environment variable and refresh.")].

(** ** Sample data *)

Definition text_client (rawText : str) : Client :=
  stub_client (Return {| text := rawText |}).

Definition summary_only : str := dq "{'finding_summary': 'x'}".

Definition error_answer : str := dq "{'error': 'quota exceeded'}".

Definition fenced_apology : str :=
  lit "```json" ++ [newline] ++ lit "not json" ++ [newline] ++ lit "```".

Definition padded_apology : str :=
  [32; 32] ++ lit "Sorry, I cannot help with that" ++ [newline].

Definition sample_finding : str :=
  lit "Account 'svc_backup' has a password that expires in 365 days, violating the 90-day policy.".

Definition sample_json : str :=
  dq "{'finding_summary':'Excessive password expiry on service account','mitre_tactic':'Persistence','mitre_technique':'T1098 - Account Manipulation','nist_function':'Protect','nist_category':'PR.AC-1','remediation_suggestion':'Reduce password rotation interval to 90 days and enforce via policy.'}".

Definition sample_mapping : list (str * value) :=
  [ (lit "finding_summary", VStr (lit "Excessive password expiry on service account"));
    (lit "mitre_tactic", VStr (lit "Persistence"));
    (lit "mitre_technique", VStr (lit "T1098 - Account Manipulation"));
    (lit "nist_function", VStr (lit "Protect"));
    (lit "nist_category", VStr (lit "PR.AC-1"));
    (lit "remediation_suggestion",
     VStr (lit "Reduce password rotation interval to 90 days and enforce via policy.")) ].

Definition sample_session (client : Client) (env : list (str * str)) : session := {|
  new_client := Return client;
  environ := env;
  button_clicked := true;
  user_input := sample_finding
|}.

(** ** Notions used by the properties of the whole run *)

(** How many events of a run satisfy [p]. *)
Definition count_events (p : event -> bool) (evs : list event) : nat :=
  length (filter p evs).

(** The banner of lines 29 and 30. *)
Definition client_failure_banner : event :=
  st_error [Lit (lit "Error: Gemini API Client failed to initialize. Ensure GEMINI_API_KEY is set in your environment or Streamlit secrets.")].

(** Neither the first nor the last character of [x] satisfies [q]. *)
Definition ends_outside (q : N -> bool) (x : str) : Prop :=
  forall c rest, x = c :: rest \/ x = rest ++ [c] -> q c = false.

(** The script asks for an analysis: the button was pressed with a
    non-empty text, and the key is in the environment. *)
Definition analysis_runs (w : session) : bool :=
  match new_client w with
  | Return _ =>
      button_clicked w && truthy (user_input w)
      && environ_has (environ w) (lit "GEMINI_API_KEY")
  | Raise _ => false
  end.

(** The banner that shows a parse failure of the model's answer. *)
Definition parse_failure_banner (e : exn) (cleanedText : str) : event :=
  st_error [Shown (VStr (error_message (exn_str e) (slice_to 50 cleanedText)))].

Definition blank_answer : str := [32; newline; 9; 160].

Definition key_present : list (str * str) := [(lit "GEMINI_API_KEY", lit "k")].

Definition idle_session (client : Client) : session := {|
  new_client := Return client;
  environ := [];
  button_clicked := true;
  user_input := []
|}.

Definition failed_session : session := {|
  new_client := Raise (Exn ValueError (lit "Missing key inputs argument!"));
  environ := [];
  button_clicked := true;
  user_input := sample_finding
|}.

(** [open] begins with the fence, and [open] and [close] hold nothing
    but characters of the fence. *)
Definition fence_noise (fence open close : str) : Prop :=
  startswith open fence = true /\
  forallb (mem_char fence) open = true /\
  forallb (mem_char fence) close = true.

(** What the script does with the value [get_risk_mapping] returned:
    lines 97 to 119. *)
Definition present (mapping_data : value) : Script unit :=
  is_error <- eval (py_in (lit "error") mapping_data) ;;
  if is_error : bool then
    message <- eval (py_getitem mapping_data (lit "error")) ;;
    emit (st_error [Shown message])
  else render_results mapping_data.

(** * Properties of the string operations and of the decoder *)

(** ** Stripping *)

Section Stripping.
Variable p : N -> bool.

Lemma lstrip_while_app l s :
  forallb p l = true -> lstrip_while p (l ++ s) = lstrip_while p s.
Proof.
  induction l as [|c l IH]; simpl; intros H; [reflexivity|].
  apply andb_true_iff in H as [Hc Hl]. rewrite Hc. auto.
Qed.

Lemma lstrip_while_stop c s :
  p c = false -> lstrip_while p (c :: s) = c :: s.
Proof. intros H; simpl; now rewrite H. Qed.

Lemma lstrip_while_split s :
  exists l, s = l ++ lstrip_while p s /\ forallb p l = true.
Proof.
  induction s as [|c s [l [E Hl]]]; simpl.
  - now exists [].
  - destruct (p c) eqn:Hc.
    + exists (c :: l); simpl. rewrite Hc, Hl. split; [congruence | reflexivity].
    + now exists [].
Qed.

Lemma lstrip_while_head s c r :
  lstrip_while p s = c :: r -> p c = false.
Proof.
  induction s as [|x s IH]; simpl; [discriminate|].
  destruct (p x) eqn:Hx; [assumption|].
  intros E; injection E as -> _; assumption.
Qed.

Lemma lstrip_while_length s :
  (length (lstrip_while p s) <= length s)%nat.
Proof.
  induction s as [|c s IH]; simpl; [lia|]. destruct (p c); simpl; lia.
Qed.

Lemma rstrip_while_app s r :
  forallb p r = true -> rstrip_while p (s ++ r) = rstrip_while p s.
Proof.
  intros H. unfold rstrip_while. rewrite rev_app_distr, lstrip_while_app; [reflexivity|].
  rewrite forallb_forall in *. intros x Hx. apply H. now apply in_rev.
Qed.

Lemma rstrip_while_stop s c :
  p c = false -> rstrip_while p (s ++ [c]) = s ++ [c].
Proof.
  intros H. unfold rstrip_while. rewrite rev_app_distr. simpl.
  rewrite H. simpl. now rewrite rev_involutive.
Qed.

(** Stripping removes exactly the surrounding characters when the text
    between them starts and ends with a character that stays. *)
Lemma strip_while_core l a mid b r :
  forallb p l = true -> forallb p r = true -> p a = false -> p b = false ->
  strip_while p (l ++ (a :: mid ++ [b]) ++ r) = a :: mid ++ [b].
Proof.
  intros Hl Hr Ha Hb. unfold strip_while.
  rewrite lstrip_while_app by assumption.
  change ((a :: mid ++ [b]) ++ r) with (a :: (mid ++ [b]) ++ r).
  rewrite lstrip_while_stop by assumption.
  change (a :: (mid ++ [b]) ++ r) with (((a :: mid) ++ [b]) ++ r).
  rewrite rstrip_while_app by assumption.
  now rewrite rstrip_while_stop.
Qed.
End Stripping.


Lemma scanstring_unicode_eq h1 h2 h3 h4 r2 b acc :
  scanstring (92 :: 117 :: h1 :: h2 :: h3 :: h4 :: r2) b acc =
  match r2 with
  | [] => ScanFail (DecodeError "Invalid \uXXXX escape" (length (117 :: h1 :: h2 :: h3 :: h4 :: r2)))
  | _ :: _ =>
      match hex4 h1 h2 h3 h4 with
      | None => ScanFail (DecodeError "Invalid \uXXXX escape" (length (117 :: h1 :: h2 :: h3 :: h4 :: r2)))
      | Some u =>
          match low_surrogate_view u r2 with
          | PairJoin u2 r4 => scanstring r4 b (join_surrogates u u2 :: acc)
          | PairBad r3 => ScanFail (DecodeError "Invalid \uXXXX escape" (length r3))
          | PairNone => scanstring r2 b (u :: acc)
          end
      end
  end.
Proof.
  cbn [scanstring N.eqb Pos.eqb quote].
  destruct r2 as [|b0 r3]; [reflexivity|].
  destruct (hex4 h1 h2 h3 h4) as [u|]; [|reflexivity].
  unfold low_surrogate_view.
  destruct r3 as [|e2 [|g1 [|g2 [|g3 [|g4 [|x r5]]]]]]; try reflexivity.
  destruct (is_high_surrogate u && (b0 =? 92) && (e2 =? 117)); [|reflexivity].
  destruct (hex4 g1 g2 g3 g4) as [u2|]; [|reflexivity].
  destruct (is_low_surrogate u2); reflexivity.
Qed.

Lemma hex_digit_quote : hex_digit quote = None.
Proof. reflexivity. Qed.

Lemma hex4_no_quote g1 g2 g3 g4 u :
  hex4 g1 g2 g3 g4 = Some u ->
  g1 <> quote /\ g2 <> quote /\ g3 <> quote /\ g4 <> quote.
Proof.
  unfold hex4. intros H.
  repeat split; intros ->; rewrite hex_digit_quote in H;
    repeat match type of H with
           | match ?x with _ => _ end = _ => destruct x
           end; discriminate.
Qed.

Lemma view_not_pair u b0 e2 r :
  (b0 =? 92) && (e2 =? 117) = false ->
  low_surrogate_view u (b0 :: e2 :: r) = PairNone.
Proof.
  intros H. unfold low_surrogate_view.
  destruct r as [|g1 [|g2 [|g3 [|g4 [|x r5]]]]]; try reflexivity.
  rewrite <- andb_assoc, H, andb_false_r. reflexivity.
Qed.


(** A successful scan that starts with a unicode escape has read four
    hexadecimal digits and found one more character after them. *)
Lemma scanstring_unicode_inv x b acc k rest :
  scanstring (92 :: 117 :: x) b acc = Scanned k rest ->
  exists g1 g2 g3 g4 y r5 u,
    x = g1 :: g2 :: g3 :: g4 :: y :: r5 /\ hex4 g1 g2 g3 g4 = Some u.
Proof.
  destruct x as [|g1 [|g2 [|g3 [|g4 r2]]]]; try (cbn; discriminate).
  rewrite scanstring_unicode_eq.
  destruct r2 as [|y r5]; [discriminate|].
  destruct (hex4 g1 g2 g3 g4) as [u|] eqn:Hh; [|discriminate].
  intros _. now exists g1, g2, g3, g4, y, r5, u.
Qed.

(** Whether a low surrogate follows is decided inside the part of the
    text that the rest of the scan reads. *)
Lemma view_stable u pre2 rest t b acc k rest' :
  scanstring (pre2 ++ quote :: rest) b acc = Scanned k rest' ->
  low_surrogate_view u (pre2 ++ quote :: rest) = PairNone ->
  low_surrogate_view u (pre2 ++ quote :: t) = PairNone.
Proof.
  intros Hs Hv.
  destruct pre2 as [|a [|b0 p]].
  - cbn [Datatypes.app]. destruct t as [|e2 t]; [reflexivity|].
    apply view_not_pair. reflexivity.
  - cbn [Datatypes.app]. apply view_not_pair. cbn. apply andb_false_r.
  - cbn [Datatypes.app] in *.
    destruct ((a =? 92) && (b0 =? 117)) eqn:Hc; [|now apply view_not_pair].
    apply andb_true_iff in Hc as [Ha Hb].
    apply N.eqb_eq in Ha, Hb. subst a b0.
    destruct (scanstring_unicode_inv _ _ _ _ _ Hs)
      as (g1 & g2 & g3 & g4 & y & r5 & u2 & Hx & Hh).
    destruct (hex4_no_quote _ _ _ _ _ Hh) as (N1 & N2 & N3 & N4).
    destruct p as [|p1 [|p2 [|p3 [|p4 p']]]]; cbn [Datatypes.app] in Hx;
      injection Hx as; try congruence.
    subst. clear Hs.
    destruct p' as [|z p'']; simpl in Hv |- *;
      (destruct (is_high_surrogate u && true && true); [|reflexivity]);
      rewrite Hh in *;
      (destruct (is_low_surrogate u2); [discriminate|reflexivity]).
Qed.

(** The scan of a string body reads up to the closing quote and does not
    depend on what follows it. *)
Lemma scanstring_ext_len n :
  forall s b acc k rest,
    (length s <= n)%nat ->
    scanstring s b acc = Scanned k rest ->
    exists pre,
      s = pre ++ quote :: rest /\
      forall t b', scanstring (pre ++ quote :: t) b' acc = Scanned k t.
Proof.
  induction n as [|n IH]; intros s b acc k rest Hlen H.
  - destruct s; [discriminate | simpl in Hlen; lia].
  - destruct s as [|c r]; [discriminate|].
    destruct (c =? quote) eqn:Hq.
    { cbn [scanstring] in H. rewrite Hq in H. injection H as <- <-.
      apply N.eqb_eq in Hq. subst c.
      exists []. split; [reflexivity|]. intros t b'. reflexivity. }
    destruct (c =? 92) eqn:Hb.
    2:{ cbn [scanstring] in H. rewrite Hq, Hb in H.
        destruct (c <=? 31) eqn:Hc; [discriminate|].
        apply IH in H; [|simpl in Hlen; lia].
        destruct H as (pre & -> & Hext).
        exists (c :: pre). split; [reflexivity|]. intros t b'.
        cbn [Datatypes.app scanstring]. rewrite Hq, Hb, Hc. apply Hext. }
    apply N.eqb_eq in Hb. subst c.
    destruct r as [|e r1]; [discriminate|].
    destruct (e =? 117) eqn:He.
    2:{ cbn [scanstring] in H. cbn [N.eqb Pos.eqb quote] in H. rewrite He in H.
        destruct (simple_escape e) as [c'|] eqn:Hse; [|discriminate].
        apply IH in H; [|simpl in Hlen; lia].
        destruct H as (pre & -> & Hext).
        exists (92 :: e :: pre). split; [reflexivity|]. intros t b'.
        cbn [Datatypes.app scanstring N.eqb Pos.eqb quote]. rewrite He, Hse. apply Hext. }
    apply N.eqb_eq in He. subst e.
    destruct r1 as [|h1 [|h2 [|h3 [|h4 r2]]]]; try discriminate.
    rewrite scanstring_unicode_eq in H.
    destruct r2 as [|x0 r2']; [discriminate|].
    destruct (hex4 h1 h2 h3 h4) as [u|] eqn:Hh; [|discriminate].
    destruct (low_surrogate_view u (x0 :: r2')) as [u2 r4| |] eqn:Hv; [| discriminate |].
    + (* a surrogate pair was joined *)
      assert (Hshape : exists g1 g2 g3 g4 e2,
                 x0 :: r2' = x0 :: e2 :: g1 :: g2 :: g3 :: g4 :: r4 /\ r4 <> [] /\
                 forall r4', r4' <> [] ->
                   low_surrogate_view u (x0 :: e2 :: g1 :: g2 :: g3 :: g4 :: r4') = PairJoin u2 r4').
      { unfold low_surrogate_view in Hv.
        destruct r2' as [|e2 [|g1 [|g2 [|g3 [|g4 [|x r5]]]]]]; try discriminate.
        destruct (is_high_surrogate u && (x0 =? 92) && (e2 =? 117)) eqn:Hc; [|discriminate].
        destruct (hex4 g1 g2 g3 g4) as [w|] eqn:Hg; [|discriminate].
        destruct (is_low_surrogate w) eqn:Hl; [|discriminate].
        injection Hv as -> <-.
        exists g1, g2, g3, g4, e2. split; [reflexivity|]. split; [discriminate|].
        intros [|x' r5'] Hne; [congruence|].
        unfold low_surrogate_view. now rewrite Hc, Hg, Hl. }
      destruct Hshape as (g1 & g2 & g3 & g4 & e2 & E & Hne & Hjoin).
      injection E as ->.
      apply IH in H; [|simpl in Hlen |- *; lia].
      destruct H as (pre & -> & Hext).
      exists (92 :: 117 :: h1 :: h2 :: h3 :: h4 :: x0 :: e2 :: g1 :: g2 :: g3 :: g4 :: pre).
      split; [reflexivity|]. intros t b'.
      cbn [Datatypes.app]. rewrite scanstring_unicode_eq, Hh, Hjoin; [apply Hext|].
      destruct pre; discriminate.
    + (* no pair: the scan goes on after the first escape *)
      pose proof H as Hs.
      apply IH in H; [|simpl in Hlen |- *; lia].
      destruct H as (pre & E & Hext).
      exists (92 :: 117 :: h1 :: h2 :: h3 :: h4 :: pre).
      split; [cbn [Datatypes.app]; now rewrite <- E|]. intros t b'.
      cbn [Datatypes.app]. rewrite scanstring_unicode_eq, Hh.
      rewrite E in Hs, Hv.
      rewrite (view_stable _ _ _ t _ _ _ _ Hs Hv).
      destruct (pre ++ quote :: t) eqn:E'; [destruct pre; discriminate|].
      rewrite <- E'. apply Hext.
Qed.

Lemma scanstring_ext s b acc k rest :
  scanstring s b acc = Scanned k rest ->
  exists pre,
    s = pre ++ quote :: rest /\
    forall t b', scanstring (pre ++ quote :: t) b' acc = Scanned k t.
Proof. apply (scanstring_ext_len (length s)). lia. Qed.



Lemma number_safe_no_digit t : number_safe t -> no_digit_ahead t.
Proof.
  destruct t as [|c t]; [trivial|]. unfold number_safe, number_tail, no_digit_ahead.
  intros H. repeat (apply orb_false_iff in H as [H _]). exact H.
Qed.

Lemma span_digits_spec s ds r :
  span_digits s = (ds, r) ->
  s = ds ++ r /\ forallb is_digit ds = true /\ no_digit_ahead r.
Proof.
  revert ds r. induction s as [|c s IH]; intros ds r; cbn [span_digits].
  - intros [= <- <-]. now repeat split.
  - destruct (is_digit c) eqn:Hc.
    + destruct (span_digits s) as [ds' r'].
      intros [= <- <-]. destruct (IH _ _ eq_refl) as (-> & Hd & Hr).
      repeat split; [|assumption]. cbn. now rewrite Hc, Hd.
    + intros [= <- <-]. repeat split. exact Hc.
Qed.

Lemma span_digits_app ds t :
  forallb is_digit ds = true -> no_digit_ahead t ->
  span_digits (ds ++ t) = (ds, t).
Proof.
  intros Hd Ht. induction ds as [|c ds IH]; cbn [Datatypes.app].
  - destruct t as [|c t]; [reflexivity|]. cbn in *. now rewrite Ht.
  - cbn in Hd. apply andb_true_iff in Hd as [Hc Hd].
    cbn [span_digits]. now rewrite Hc, IH.
Qed.


Lemma scan_int_part_ext s i r :
  scan_int_part s = Some (i, r) ->
  s = i ++ r /\ number_head i /\
  forall t, no_digit_ahead t -> scan_int_part (i ++ t) = Some (i, t).
Proof.
  unfold scan_int_part.
  assert (Hbody : forall sign s1,
             match s1 with
             | c :: r0 =>
                 if c =? 48 then Some (sign ++ [c], r0)
                 else if is_digit c
                      then let (ds, rest) := span_digits r0 in Some (sign ++ c :: ds, rest)
                      else None
             | [] => None
             end = Some (i, r) ->
             exists j, i = sign ++ j /\ s1 = j ++ r /\ j <> [] /\
               (exists d j', j = d :: j' /\ is_digit d = true) /\
               forall t, no_digit_ahead t ->
                 match j ++ t with
                 | c :: r0 =>
                     if c =? 48 then Some (sign ++ [c], r0)
                     else if is_digit c
                          then let (ds, rest) := span_digits r0 in Some (sign ++ c :: ds, rest)
                          else None
                 | [] => None
                 end = Some (sign ++ j, t)).
  { intros sign [|c r0]; [discriminate|].
    destruct (c =? 48) eqn:H0.
    - intros [= <- <-]. exists [c]. repeat split; try discriminate.
      + exists c, []. split; [reflexivity|]. apply N.eqb_eq in H0. now subst.
      + intros t _. cbn. now rewrite H0.
    - destruct (is_digit c) eqn:Hc; [|discriminate].
      destruct (span_digits r0) as [ds rest] eqn:Hs. intros [= <- <-].
      destruct (span_digits_spec _ _ _ Hs) as (-> & Hd & _).
      exists (c :: ds). repeat split; try discriminate.
      + now exists c, ds.
      + intros t Ht. cbn. rewrite H0, Hc, span_digits_app; auto. }
  destruct s as [|c s'].
  - intros H. destruct (Hbody [] [] H) as (j & _ & Hj & _). destruct j; discriminate.
  - destruct (c =? 45) eqn:Hm.
    + intros H. destruct (Hbody [c] s' H) as (j & -> & -> & Hne & (d & j' & -> & Hd) & Hext).
      repeat split; [right; apply N.eqb_eq in Hm; now split|].
      intros t Ht. cbn [Datatypes.app]. rewrite Hm. apply (Hext t Ht).
    + intros H. destruct (Hbody [] (c :: s') H) as (j & -> & E & Hne & (d & j' & -> & Hd) & Hext).
      cbn [Datatypes.app] in *. injection E as <- ->.
      repeat split; [now left|].
      intros t Ht. rewrite Hm. apply (Hext t Ht).
Qed.


Lemma number_safe_frac_safe t : number_safe t -> frac_safe t.
Proof.
  destruct t as [|c t]; [trivial|]. unfold number_safe, number_tail, frac_safe.
  intros Ht. apply orb_false_iff in Ht as [Ht _]. now apply orb_false_iff in Ht as [Ht _].
Qed.

Lemma frac_safe_no_digit t : frac_safe t -> no_digit_ahead t.
Proof.
  destruct t as [|c t]; [trivial|]. unfold frac_safe, no_digit_ahead.
  intros Ht. now apply orb_false_iff in Ht as [Ht _].
Qed.

Lemma scan_frac_none t : frac_safe t -> scan_frac t = ([], t).
Proof.
  destruct t as [|c [|d t]]; intros Ht; try reflexivity.
  unfold scan_frac. unfold frac_safe in Ht. apply orb_false_iff in Ht as [_ Ht].
  now rewrite Ht.
Qed.

Lemma scan_frac_ext s f r :
  scan_frac s = (f, r) ->
  s = f ++ r /\
  (f = [] \/ exists f', f = 46 :: f') /\
  forall t, frac_safe t -> scan_frac (f ++ t) = (f, t).
Proof.
  unfold scan_frac at 1.
  destruct s as [|c [|d s']];
    try (intros [= <- <-]; repeat split; [now left | exact scan_frac_none]).
  destruct ((c =? 46) && is_digit d) eqn:Hc.
  - destruct (span_digits s') as [ds rest] eqn:Hs. intros [= <- <-].
    destruct (span_digits_spec _ _ _ Hs) as (-> & Hd & _).
    apply andb_true_iff in Hc as [Hc1 Hc2]. pose proof Hc1 as Hc1'.
    apply N.eqb_eq in Hc1'. subst c.
    repeat split; [right; eauto|].
    intros t Ht. unfold scan_frac. cbn [Datatypes.app]. rewrite Hc2. cbn [andb N.eqb Pos.eqb].
    rewrite span_digits_app; auto using frac_safe_no_digit.
  - intros [= <- <-]. repeat split; [now left | exact scan_frac_none].
Qed.

Lemma scan_exp_none t : number_safe t -> scan_exp t = ([], t).
Proof.
  destruct t as [|c t]; intros Ht; [reflexivity|]. unfold scan_exp.
  unfold number_safe, number_tail in Ht.
  apply orb_false_iff in Ht as [Ht H69]. apply orb_false_iff in Ht as [_ H101].
  now rewrite H101, H69.
Qed.

Lemma digit_not_sign d : is_digit d = true -> (d =? 43) || (d =? 45) = false.
Proof.
  unfold is_digit. intros H. apply andb_true_iff in H as [H1 H2].
  apply N.leb_le in H1, H2. apply orb_false_iff; split; apply N.eqb_neq; lia.
Qed.

Lemma scan_exp_ext s x r :
  scan_exp s = (x, r) ->
  s = x ++ r /\
  (x = [] \/ exists c x', x = c :: x' /\ ((c =? 101) || (c =? 69)) = true) /\
  forall t, number_safe t -> scan_exp (x ++ t) = (x, t).
Proof.
  unfold scan_exp at 1.
  destruct s as [|c s'].
  { intros [= <- <-]. repeat split; [now left | exact scan_exp_none]. }
  destruct ((c =? 101) || (c =? 69)) eqn:Hc.
  2:{ intros [= <- <-]. repeat split; [now left | exact scan_exp_none]. }
  destruct s' as [|g r'].
  { cbn. intros [= <- <-]. repeat split; [now left | exact scan_exp_none]. }
  destruct ((g =? 43) || (g =? 45)) eqn:Hg.
  - destruct (span_digits r') as [ds rest] eqn:Hs.
    destruct (span_digits_spec _ _ _ Hs) as (-> & Hd & _).
    destruct ds as [|d ds].
    { intros [= <- <-]. repeat split; [now left | exact scan_exp_none]. }
    intros [= <- <-]. split; [reflexivity|]. split; [right; eauto|].
    intros t Ht. unfold scan_exp. cbn [Datatypes.app]. rewrite Hc, Hg.
    change (d :: ds ++ t) with ((d :: ds) ++ t).
    rewrite span_digits_app; auto using number_safe_no_digit.
  - destruct (span_digits (g :: r')) as [ds rest] eqn:Hs.
    destruct (span_digits_spec _ _ _ Hs) as (E & Hd & _).
    destruct ds as [|d ds].
    { intros [= <- <-]. repeat split; [now left | exact scan_exp_none]. }
    cbn [Datatypes.app] in E. injection E as <- ->.
    intros [= <- <-]. split; [reflexivity|]. split; [right; eauto|].
    intros t Ht. unfold scan_exp. cbn [Datatypes.app]. rewrite Hc, Hg.
    change (g :: ds ++ t) with ((g :: ds) ++ t).
    rewrite span_digits_app; auto using number_safe_no_digit.
Qed.

Lemma number_head_app i y : number_head i -> number_head (i ++ y).
Proof.
  destruct i as [|c [|d i']]; cbn [number_head Datatypes.app]; [tauto | | tauto].
  intros [H|[_ []]]. now left.
Qed.

Lemma exp_head_frac_safe c x t :
  (c =? 101) || (c =? 69) = true -> frac_safe ((c :: x) ++ t).
Proof.
  cbn. intros H. unfold is_digit.
  apply orb_true_iff in H as [H|H]; apply N.eqb_eq in H; subst c; reflexivity.
Qed.

(** A number is read the same whatever follows it, as long as what
    follows cannot continue it. *)
Lemma match_number_ext s v rest :
  match_number s = Scanned v rest ->
  exists pre,
    s = pre ++ rest /\ number_head pre /\
    (forall d, v <> VDict d) /\
    forall t, number_safe t -> match_number (pre ++ t) = Scanned v t.
Proof.
  unfold match_number at 1.
  destruct (scan_int_part s) as [[i r1]|] eqn:Hi; [|discriminate].
  destruct (scan_frac r1) as [f r2] eqn:Hf.
  destruct (scan_exp r2) as [x r3] eqn:Hx.
  destruct (scan_int_part_ext _ _ _ Hi) as (-> & Hhead & Hie).
  destruct (scan_frac_ext _ _ _ Hf) as (-> & Hfs & Hfe).
  destruct (scan_exp_ext _ _ _ Hx) as (-> & Hxs & Hxe).
  intros H. exists (i ++ f ++ x).
  assert (Hrest : r3 = rest).
  { destruct f, x;
      repeat match type of H with
             | (if ?c then _ else _) = _ => destruct c
             end; congruence. }
  subst r3.
  split; [now rewrite <- !app_assoc|].
  split; [now apply number_head_app|].
  split.
  { intros d. destruct f, x;
      repeat match type of H with
             | (if ?c then _ else _) = _ => destruct c
             end; congruence. }
  intros t Ht.
  assert (Hxt : frac_safe (x ++ t)).
  { destruct Hxs as [->|(c & x' & -> & Hc)];
      [now apply number_safe_frac_safe | now apply exp_head_frac_safe]. }
  assert (Hft : no_digit_ahead (f ++ x ++ t)).
  { destruct Hfs as [->|(f' & ->)]; [now apply frac_safe_no_digit | reflexivity]. }
  unfold match_number. rewrite <- !app_assoc.
  rewrite (Hie _ Hft), (Hfe _ Hxt), (Hxe _ Ht).
  destruct f, x;
    repeat match type of H with
           | (if ?c then _ else _) = _ => destruct c
           end; congruence.
Qed.

(** ** Constants *)

Lemma strip_prefix_spec p s r : strip_prefix p s = Some r -> s = p ++ r.
Proof.
  revert s. induction p as [|x p IH]; intros [|c s]; cbn; try congruence.
  destruct (c =? x) eqn:E; [|discriminate].
  apply N.eqb_eq in E. subst. intros H. now rewrite (IH _ H).
Qed.

Lemma scan_constant_ext s v rest :
  scan_constant s = Some (v, rest) ->
  exists pre,
    s = pre ++ rest /\ pre <> [] /\
    (forall d, v <> VDict d) /\
    forall t, scan_constant (pre ++ t) = Some (v, t).
Proof.
  unfold scan_constant at 1.
  repeat match goal with
         | |- match strip_prefix ?p s with _ => _ end = _ -> _ =>
             let E := fresh "E" in
             destruct (strip_prefix p s) eqn:E;
             [ apply strip_prefix_spec in E; intros [= <- <-];
               exists p; split; [assumption|]; split; [discriminate|];
               split; [discriminate | intros t; reflexivity]
             |]
         end; discriminate.
Qed.

(** A text that starts like a number is none of the constants. *)
Lemma number_head_not_constant pre t :
  number_head pre -> scan_constant (pre ++ t) = None.
Proof.
  destruct pre as [|c pre]; [intros []|].
  intros [Hd|[-> Hd]].
  - unfold is_digit in Hd. apply andb_true_iff in Hd as [H1 H2].
    apply N.leb_le in H1, H2.
    unfold scan_constant. cbn [Datatypes.app lit strip_prefix].
    repeat match goal with
           | |- context [c =? ?k] => replace (c =? k) with false by (symmetry; apply N.eqb_neq; cbn; lia)
           end.
    reflexivity.
  - destruct pre as [|d pre]; [destruct Hd|].
    unfold is_digit in Hd. apply andb_true_iff in Hd as [H1 H2].
    apply N.leb_le in H1, H2.
    unfold scan_constant. cbn [Datatypes.app lit strip_prefix ch N_of_ascii N.eqb Pos.eqb N_of_digits N.add N.mul Pos.add Pos.mul Pos.succ].
    replace (d =? 73) with false by (symmetry; apply N.eqb_neq; lia).
    reflexivity.
Qed.

(** ** Whitespace between tokens *)

Lemma skip_ws_split r c r2 :
  skip_ws r = c :: r2 ->
  exists ws, r = ws ++ c :: r2 /\ forallb is_json_ws ws = true /\ is_json_ws c = false.
Proof.
  intros H. destruct (lstrip_while_split is_json_ws r) as (ws & E & Hws).
  fold (skip_ws r) in E. rewrite H in E.
  exists ws. repeat split; try assumption.
  now apply (lstrip_while_head is_json_ws r c r2).
Qed.

Lemma skip_ws_app_stop ws c x :
  forallb is_json_ws ws = true -> is_json_ws c = false ->
  skip_ws (ws ++ c :: x) = c :: x.
Proof.
  intros Hws Hc. unfold skip_ws.
  rewrite lstrip_while_app by assumption. now apply lstrip_while_stop.
Qed.

Lemma json_ws_not_number_tail c : is_json_ws c = true -> number_tail c = false.
Proof.
  unfold is_json_ws. intros H.
  repeat (apply orb_true_iff in H as [H|H]);
    apply N.eqb_eq in H; subst c; reflexivity.
Qed.

Lemma number_safe_ws_app ws c t :
  forallb is_json_ws ws = true -> number_tail c = false ->
  number_safe (ws ++ c :: t).
Proof.
  destruct ws as [|w ws]; cbn; [trivial|].
  intros H _. apply andb_true_iff in H as [H _].
  now apply json_ws_not_number_tail.
Qed.

Lemma number_safe_ws ws :
  forallb is_json_ws ws = true -> number_safe ws.
Proof.
  destruct ws as [|w ws]; cbn; [trivial|].
  intros H. apply andb_true_iff in H as [H _].
  now apply json_ws_not_number_tail.
Qed.

Lemma skip_ws_head r pre rest :
  skip_ws r = pre ++ rest -> pre <> [] ->
  exists c pre', pre = c :: pre' /\ is_json_ws c = false.
Proof.
  destruct pre as [|c pre']; [congruence|]. intros H _.
  exists c, pre'. split; [reflexivity|].
  now apply (lstrip_while_head is_json_ws r c (pre' ++ rest)).
Qed.


Ltac norm_app :=
  repeat (rewrite <- app_assoc || rewrite <- app_comm_cons).

Ltac norm_len H :=
  repeat first [rewrite length_app in H | progress (cbn [length] in H)].

Section Loops.
Variable scan : str -> scan_result value.
Variable fam : nat -> str -> scan_result value.
Hypothesis Hscan : scan_ext scan fam.

Lemma array_loop_ext n :
  forall s acc v rest,
    array_loop scan n s acc = Scanned v rest ->
    exists pre,
      s = pre ++ 93 :: rest /\ pre <> [] /\
      (forall d, v <> VDict d) /\
      forall g m t, (length pre <= g)%nat -> (length pre <= m)%nat ->
                    array_loop (fam g) m (pre ++ 93 :: t) acc = Scanned v t.
Proof.
  induction n as [|n IH]; intros s acc v rest H; [discriminate|].
  cbn [array_loop] in H.
  destruct (scan s) as [x r1| |] eqn:Hx; try discriminate.
  destruct (Hscan _ _ _ Hx) as (pre1 & -> & Hne1 & _ & Hext1).
  destruct (skip_ws r1) as [|c r2] eqn:Hws; [discriminate|].
  destruct (skip_ws_split _ _ _ Hws) as (ws1 & -> & Hws1 & Hc).
  destruct (c =? 93) eqn:H93.
  - injection H as <- <-. apply N.eqb_eq in H93. subst c.
    exists (pre1 ++ ws1). split; [now rewrite <- app_assoc|].
    split; [destruct pre1; [congruence | discriminate]|].
    split; [discriminate|].
    intros g m t Hg Hm. rewrite length_app in Hg, Hm.
    destruct m as [|m]; [destruct pre1; [congruence | simpl in Hm; lia]|].
    cbn [array_loop]. rewrite <- app_assoc.
    rewrite Hext1; [| lia | now apply number_safe_ws_app].
    now rewrite skip_ws_app_stop.
  - destruct (c =? 44) eqn:H44; [|discriminate].
    apply N.eqb_eq in H44. subst c.
    destruct (IH _ _ _ _ H) as (pre' & E & Hne' & Hnd & Hext').
    destruct (lstrip_while_split is_json_ws r2) as (ws2 & E2 & Hws2).
    fold (skip_ws r2) in E2. rewrite E in E2.
    destruct (skip_ws_head _ _ _ E Hne') as (c' & pre'' & Epre & Hc').
    exists (pre1 ++ ws1 ++ 44 :: ws2 ++ pre').
    split; [rewrite E2, <- !app_assoc; cbn [Datatypes.app]; now rewrite <- !app_assoc|].
    split; [destruct pre1; [congruence | discriminate]|].
    split; [assumption|].
    intros g m t Hg Hm. rewrite !length_app in Hg, Hm. cbn [length] in Hg, Hm.
    rewrite length_app in Hg, Hm.
    destruct m as [|m]; [lia|].
    cbn [array_loop]. rewrite <- !app_assoc. cbn [Datatypes.app]. rewrite <- !app_assoc.
    rewrite Hext1; [| lia | now apply number_safe_ws_app].
    rewrite skip_ws_app_stop by assumption.
    cbn [N.eqb Pos.eqb].
    assert (Hskip : skip_ws (ws2 ++ pre' ++ 93 :: t) = pre' ++ 93 :: t).
    { rewrite Epre. cbn [Datatypes.app]. now apply skip_ws_app_stop. }
    rewrite Hskip. apply Hext'; lia.
Qed.

Lemma object_loop_ext n :
  forall s acc v rest,
    object_loop scan n s acc = Scanned v rest ->
    exists pre,
      s = pre ++ 125 :: rest /\ pre <> [] /\
      forall g m t, (length pre <= g)%nat -> (length pre <= m)%nat ->
                    object_loop (fam g) m (pre ++ 125 :: t) acc = Scanned v t.
Proof.
  induction n as [|n IH]; intros s acc v rest H; [discriminate|].
  cbn [object_loop] in H.
  destruct s as [|c r]; [discriminate|].
  destruct (c =? quote) eqn:Hq; [|discriminate].
  apply N.eqb_eq in Hq. subst c.
  destruct (scanstring r (length (quote :: r)) []) as [key r1| |] eqn:Hk; try discriminate.
  destruct (scanstring_ext _ _ _ _ _ Hk) as (kp & -> & Hkext).
  destruct (skip_ws r1) as [|c1 r2] eqn:Hws1; [discriminate|].
  destruct (skip_ws_split _ _ _ Hws1) as (ws1 & -> & Hw1 & Hc1).
  destruct (c1 =? 58) eqn:H58; [|discriminate].
  apply N.eqb_eq in H58. subst c1.
  destruct (scan (skip_ws r2)) as [x r3| |] eqn:Hx; try discriminate.
  destruct (Hscan _ _ _ Hx) as (pv & Epv & Hnev & _ & Hextv).
  destruct (skip_ws_head _ _ _ Epv Hnev) as (cv & pv' & Ecv & Hcv).
  destruct (lstrip_while_split is_json_ws r2) as (ws2 & E2 & Hw2).
  fold (skip_ws r2) in E2. rewrite Epv in E2. subst r2.
  destruct (skip_ws r3) as [|c2 r4] eqn:Hws3; [discriminate|].
  destruct (skip_ws_split _ _ _ Hws3) as (ws3 & -> & Hw3 & Hc2).
  assert (Hskipv : forall y, skip_ws (ws2 ++ pv ++ y) = pv ++ y).
  { intros y. rewrite Ecv. cbn [Datatypes.app]. now apply skip_ws_app_stop. }
  destruct (c2 =? 125) eqn:H125.
  - injection H as <- <-. apply N.eqb_eq in H125. subst c2.
    exists (quote :: kp ++ quote :: ws1 ++ 58 :: ws2 ++ pv ++ ws3).
    split; [now norm_app|].
    split; [discriminate|].
    intros g m t Hg Hm. norm_len Hg. norm_len Hm.
    destruct m as [|m]; [lia|].
    norm_app.
    cbn [object_loop N.eqb Pos.eqb quote].
    rewrite Hkext.
    rewrite skip_ws_app_stop by assumption. cbn [N.eqb Pos.eqb].
    rewrite Hskipv.
    rewrite Hextv; [| lia | now apply number_safe_ws_app].
    rewrite skip_ws_app_stop by assumption. cbn [N.eqb Pos.eqb]. reflexivity.
  - destruct (c2 =? 44) eqn:H44; [|discriminate].
    apply N.eqb_eq in H44. subst c2.
    destruct (IH _ _ _ _ H) as (pre' & E & Hne' & Hext').
    destruct (skip_ws_head _ _ _ E Hne') as (c' & pre'' & Epre & Hc').
    destruct (lstrip_while_split is_json_ws r4) as (ws4 & E4 & Hw4).
    fold (skip_ws r4) in E4. rewrite E in E4.
    exists (quote :: kp ++ quote :: ws1 ++ 58 :: ws2 ++ pv ++ ws3 ++ 44 :: ws4 ++ pre').
    split; [rewrite E4; now norm_app|].
    split; [discriminate|].
    intros g m t Hg Hm. norm_len Hg. norm_len Hm.
    destruct m as [|m]; [lia|].
    norm_app.
    cbn [object_loop N.eqb Pos.eqb quote].
    rewrite Hkext.
    rewrite skip_ws_app_stop by assumption. cbn [N.eqb Pos.eqb].
    rewrite Hskipv.
    rewrite Hextv; [| lia | now apply number_safe_ws_app].
    rewrite skip_ws_app_stop by assumption. cbn [N.eqb Pos.eqb].
    assert (Hskip : skip_ws (ws4 ++ pre' ++ 125 :: t) = pre' ++ 125 :: t).
    { rewrite Epre. cbn [Datatypes.app]. now apply skip_ws_app_stop. }
    rewrite Hskip. apply Hext'; lia.
Qed.
End Loops.

Lemma map_scanned_inv {A B : Type} (f : A -> B) r b rest :
  map_scanned f r = Scanned b rest -> exists a, r = Scanned a rest /\ b = f a.
Proof. destruct r; cbn; intros [= <- <-] || discriminate. eauto. Qed.

(** The head of the text selects the kind of value. *)
Lemma scan_once_head g c s :
  scan_once (S g) (c :: s) =
  if c =? quote then map_scanned VStr (scanstring s (length (c :: s)) [])
  else if c =? 123 then
    match skip_ws s with
    | c1 :: r1 =>
        if c1 =? 125 then Scanned (VDict []) r1
        else object_loop (scan_once g) (length (c :: s)) (c1 :: r1) []
    | [] => object_loop (scan_once g) (length (c :: s)) [] []
    end
  else if c =? 91 then
    match skip_ws s with
    | c1 :: r1 =>
        if c1 =? 93 then Scanned (VList []) r1
        else array_loop (scan_once g) (length (c :: s)) (c1 :: r1) []
    | [] => array_loop (scan_once g) (length (c :: s)) [] []
    end
  else
    match scan_constant (c :: s) with
    | Some (v, rest) => Scanned v rest
    | None => match_number (c :: s)
    end.
Proof. reflexivity. Qed.

Lemma scan_once_nil g : forall v rest, scan_once g [] <> Scanned v rest.
Proof. destruct g; discriminate. Qed.

(** A value that was read is read again when the text after it changes,
    at any sufficient depth. *)
Lemma scan_once_ext f : scan_ext (scan_once f) scan_once.
Proof.
  induction f as [|f IH]; intros s v rest H; [discriminate|].
  destruct s as [|c r]; [discriminate|].
  rewrite scan_once_head in H.
  destruct (c =? quote) eqn:Hq.
  { apply map_scanned_inv in H as (k & Hk & ->).
    apply N.eqb_eq in Hq. subst c.
    destruct (scanstring_ext _ _ _ _ _ Hk) as (kp & -> & Hkext).
    exists (quote :: kp ++ [quote]).
    split; [now norm_app|]. split; [discriminate|]. split; [discriminate|].
    intros g t Hg _. destruct g as [|g]; [simpl in Hg; lia|].
    norm_app. rewrite scan_once_head. cbn [N.eqb Pos.eqb quote].
    cbn [Datatypes.app]. fold quote. now rewrite Hkext. }
  destruct (c =? 123) eqn:Ho.
  { apply N.eqb_eq in Ho. subst c.
    destruct (skip_ws r) as [|c1 r1] eqn:Hws.
    { exfalso. cbn in H. discriminate. }
    destruct (skip_ws_split _ _ _ Hws) as (ws & -> & Hw & Hc1).
    destruct (c1 =? 125) eqn:Hc.
    - injection H as <- <-. apply N.eqb_eq in Hc. subst c1.
      exists (123 :: ws ++ [125]).
      split; [now norm_app|]. split; [discriminate|].
      split; [intros d _; now exists ws|].
      intros g t Hg _. destruct g as [|g]; [simpl in Hg; lia|].
      norm_app. rewrite scan_once_head. cbn [N.eqb Pos.eqb quote].
      cbn [Datatypes.app]. now rewrite skip_ws_app_stop.
    - destruct (object_loop_ext _ _ IH _ _ _ _ _ H) as (po & E & Hne & Hext).
      destruct po as [|c0 po']; [congruence|].
      cbn [Datatypes.app] in E. injection E as <- ->.
      exists (123 :: ws ++ (c1 :: po') ++ [125]).
      split; [now norm_app|]. split; [discriminate|].
      split; [intros d _; exists (ws ++ c1 :: po'); now norm_app|].
      intros g t Hg _. norm_len Hg.
      destruct g as [|g]; [lia|].
      norm_app. rewrite scan_once_head. cbn [N.eqb Pos.eqb quote].
      rewrite skip_ws_app_stop by assumption. rewrite Hc.
      apply (Hext g _ t); [cbn [length]; lia|].
      repeat first [rewrite length_app | progress cbn [length]]. lia. }
  destruct (c =? 91) eqn:Ha.
  { apply N.eqb_eq in Ha. subst c.
    destruct (skip_ws r) as [|c1 r1] eqn:Hws.
    { exfalso. cbn [length array_loop] in H.
      destruct (scan_once f []) eqn:E; try discriminate.
      now apply scan_once_nil in E. }
    destruct (skip_ws_split _ _ _ Hws) as (ws & -> & Hw & Hc1).
    destruct (c1 =? 93) eqn:Hc.
    - injection H as <- <-. apply N.eqb_eq in Hc. subst c1.
      exists (91 :: ws ++ [93]).
      split; [now norm_app|]. split; [discriminate|]. split; [discriminate|].
      intros g t Hg _. destruct g as [|g]; [simpl in Hg; lia|].
      norm_app. rewrite scan_once_head. cbn [N.eqb Pos.eqb quote].
      cbn [Datatypes.app]. now rewrite skip_ws_app_stop.
    - destruct (array_loop_ext _ _ IH _ _ _ _ _ H) as (pa & E & Hne & Hnd & Hext).
      destruct pa as [|c0 pa']; [congruence|].
      cbn [Datatypes.app] in E. injection E as <- ->.
      exists (91 :: ws ++ (c1 :: pa') ++ [93]).
      split; [now norm_app|]. split; [discriminate|].
      split; [intros d ->; now destruct (Hnd d)|].
      intros g t Hg _. norm_len Hg.
      destruct g as [|g]; [lia|].
      norm_app. rewrite scan_once_head. cbn [N.eqb Pos.eqb quote].
      rewrite skip_ws_app_stop by assumption. rewrite Hc.
      apply (Hext g _ t); [cbn [length]; lia|].
      repeat first [rewrite length_app | progress cbn [length]]. lia. }
  destruct (scan_constant (c :: r)) as [[v' rest']|] eqn:Hk.
  { injection H as <- <-.
    destruct (scan_constant_ext _ _ _ Hk) as (pre & E & Hne & Hnd & Hext).
    exists pre. split; [assumption|]. split; [assumption|].
    split; [intros d ->; now destruct (Hnd d)|].
    intros g t Hg _.
    destruct pre as [|c0 pre']; [congruence|].
    cbn [Datatypes.app] in E. injection E as <- ->.
    destruct g as [|g]; [simpl in Hg; lia|].
    cbn [Datatypes.app]. rewrite scan_once_head, Hq, Ho, Ha.
    change (c :: pre' ++ t) with ((c :: pre') ++ t). now rewrite Hext. }
  destruct (match_number_ext _ _ _ H) as (pre & E & Hhead & Hnd & Hext).
  exists pre. split; [assumption|].
  split; [intros ->; destruct Hhead|].
  split; [intros d ->; now destruct (Hnd d)|].
  intros g t Hg Ht.
  destruct pre as [|c0 pre']; [destruct Hhead|].
  cbn [Datatypes.app] in E. injection E as <- ->.
  destruct g as [|g]; [simpl in Hg; lia|].
  cbn [Datatypes.app]. rewrite scan_once_head, Hq, Ho, Ha.
  change (c :: pre' ++ t) with ((c :: pre') ++ t).
  rewrite number_head_not_constant by assumption. now apply Hext.
Qed.

(** ** The decoder always has enough fuel *)

Lemma scanstring_fuel_len n :
  forall s b acc, (length s <= n)%nat -> scanstring s b acc <> OutOfFuel.
Proof.
  induction n as [|n IH]; intros s b acc Hlen.
  - destruct s; [discriminate | simpl in Hlen; lia].
  - destruct s as [|c r]; [discriminate|].
    destruct (c =? quote) eqn:Hq.
    { cbn [scanstring]. rewrite Hq. discriminate. }
    destruct (c =? 92) eqn:Hb.
    2:{ cbn [scanstring]. rewrite Hq, Hb.
        destruct (c <=? 31); [discriminate|]. apply IH. simpl in Hlen; lia. }
    apply N.eqb_eq in Hb. subst c.
    destruct r as [|e r1]; [discriminate|].
    destruct (e =? 117) eqn:He.
    2:{ cbn [scanstring N.eqb Pos.eqb quote]. rewrite He.
        destruct (simple_escape e); [|discriminate]. apply IH. simpl in Hlen; lia. }
    apply N.eqb_eq in He. subst e.
    destruct r1 as [|h1 [|h2 [|h3 [|h4 r2]]]]; try discriminate.
    rewrite scanstring_unicode_eq.
    destruct r2 as [|x0 r2']; [discriminate|].
    destruct (hex4 h1 h2 h3 h4) as [u|]; [|discriminate].
    destruct (low_surrogate_view u (x0 :: r2')) as [u2 r4| |] eqn:Hv; [| discriminate |].
    + apply IH. unfold low_surrogate_view in Hv.
      destruct r2' as [|e2 [|g1 [|g2 [|g3 [|g4 [|x r5]]]]]]; try discriminate.
      destruct (is_high_surrogate u && (x0 =? 92) && (e2 =? 117)); [|discriminate].
      destruct (hex4 g1 g2 g3 g4) as [w|]; [|discriminate].
      destruct (is_low_surrogate w); [|discriminate].
      injection Hv as _ <-. simpl in Hlen |- *. lia.
    + apply IH. simpl in Hlen |- *. lia.
Qed.

Lemma scanstring_fuel s b acc : scanstring s b acc <> OutOfFuel.
Proof. apply (scanstring_fuel_len (length s)). lia. Qed.

Lemma match_number_fuel s : match_number s <> OutOfFuel.
Proof.
  unfold match_number.
  destruct (scan_int_part s) as [[i r1]|]; [|discriminate].
  destruct (scan_frac r1) as [f r2]. destruct (scan_exp r2) as [x r3].
  destruct f, x; try discriminate.
  destruct (int_max_str_digits <? count_digits i)%nat; discriminate.
Qed.

Lemma skip_ws_length s : (length (skip_ws s) <= length s)%nat.
Proof. apply lstrip_while_length. Qed.

Section LoopsFuel.
Variable scan : str -> scan_result value.
Variable bound : nat.
Hypothesis Hfuel : forall s, (length s < bound)%nat -> scan s <> OutOfFuel.
Hypothesis Hshrink :
  forall s v rest, scan s = Scanned v rest -> (length rest < length s)%nat.

Lemma array_loop_fuel n :
  forall s acc,
    (length s < n)%nat -> (length s < bound)%nat ->
    array_loop scan n s acc <> OutOfFuel.
Proof.
  induction n as [|n IH]; intros s acc Hn Hb; [lia|].
  cbn [array_loop].
  destruct (scan s) as [x r1| |] eqn:Hx; [| discriminate | now apply Hfuel in Hx].
  apply Hshrink in Hx.
  destruct (skip_ws r1) as [|c r2] eqn:Hws; [discriminate|].
  pose proof (skip_ws_length r1) as L1. rewrite Hws in L1. cbn [length] in L1.
  pose proof (skip_ws_length r2) as L2.
  destruct (c =? 93); [discriminate|].
  destruct (c =? 44); [|discriminate].
  apply IH; lia.
Qed.

Lemma object_loop_fuel n :
  forall s acc,
    (length s < n)%nat -> (length s < bound)%nat ->
    object_loop scan n s acc <> OutOfFuel.
Proof.
  induction n as [|n IH]; intros s acc Hn Hb; [lia|].
  cbn [object_loop].
  destruct s as [|c r]; [discriminate|].
  destruct (c =? quote); [|discriminate].
  destruct (scanstring r (length (c :: r)) []) as [key r1| |] eqn:Hk;
    [| discriminate | now apply scanstring_fuel in Hk].
  destruct (scanstring_ext _ _ _ _ _ Hk) as (kp & -> & _).
  cbn [length] in Hn, Hb. rewrite length_app in Hn, Hb. cbn [length] in Hn, Hb.
  destruct (skip_ws r1) as [|c1 r2] eqn:Hws; [discriminate|].
  pose proof (skip_ws_length r1) as L1. rewrite Hws in L1. cbn [length] in L1.
  pose proof (skip_ws_length r2) as L2.
  destruct (c1 =? 58); [|discriminate].
  destruct (scan (skip_ws r2)) as [x r3| |] eqn:Hx;
    [| discriminate | exfalso; apply (Hfuel (skip_ws r2)); [lia | assumption]].
  apply Hshrink in Hx.
  destruct (skip_ws r3) as [|c2 r4] eqn:Hws3; [discriminate|].
  pose proof (skip_ws_length r3) as L3. rewrite Hws3 in L3. cbn [length] in L3.
  pose proof (skip_ws_length r4) as L4.
  destruct (c2 =? 125); [discriminate|].
  destruct (c2 =? 44); [|discriminate].
  apply IH; lia.
Qed.
End LoopsFuel.

Lemma scan_once_shrink f s v rest :
  scan_once f s = Scanned v rest -> (length rest < length s)%nat.
Proof.
  intros H. destruct (scan_once_ext f _ _ _ H) as (pre & -> & Hne & _).
  rewrite length_app. destruct pre; [congruence | simpl; lia].
Qed.

(** Depth [S (length s)] is always enough. *)
Lemma scan_once_fuel f :
  forall s, (length s < f)%nat -> scan_once f s <> OutOfFuel.
Proof.
  induction f as [|f IH]; intros s Hlen; [lia|].
  destruct s as [|c r]; [discriminate|].
  rewrite scan_once_head. cbn [length] in Hlen.
  pose proof (skip_ws_length r) as L.
  destruct (c =? quote).
  { destruct (scanstring r (length (c :: r)) []) eqn:E; try discriminate.
    now apply scanstring_fuel in E. }
  destruct (c =? 123).
  { destruct (skip_ws r) as [|c1 r1] eqn:Hws; [discriminate|].
    destruct (c1 =? 125); [discriminate|].
    cbn [length] in L |- *.
    apply (object_loop_fuel _ f IH (scan_once_shrink f)); cbn [length]; lia. }
  destruct (c =? 91).
  { destruct (skip_ws r) as [|c1 r1] eqn:Hws.
    - cbn [length array_loop].
      destruct f as [|f']; [lia|]. discriminate.
    - destruct (c1 =? 93); [discriminate|].
      cbn [length] in L |- *.
      apply (array_loop_fuel _ f IH (scan_once_shrink f)); cbn [length]; lia. }
  destruct (scan_constant (c :: r)) as [[v rest]|]; [discriminate|].
  apply match_number_fuel.
Qed.

(** ** [json_loads] and surrounding whitespace *)

Lemma lstrip_while_nil_all p s : lstrip_while p s = [] -> forallb p s = true.
Proof.
  induction s as [|c s IH]; cbn; [reflexivity|].
  destruct (p c); [exact IH | discriminate].
Qed.

Lemma lstrip_while_all p s : forallb p s = true -> lstrip_while p s = [].
Proof.
  induction s as [|c s IH]; cbn; [reflexivity|].
  intros H. apply andb_true_iff in H as [-> H]. auto.
Qed.

Lemma scan_once_not_bom g x v rest :
  scan_once g (byte_order_mark :: x) <> Scanned v rest.
Proof.
  destruct g as [|g]; [discriminate|].
  rewrite scan_once_head. cbn. discriminate.
Qed.

Lemma startswith_bom_cons c x :
  startswith (c :: x) [byte_order_mark] = (c =? byte_order_mark).
Proof. destruct x; cbn; apply andb_true_r. Qed.

Lemma json_ws_not_bom c : is_json_ws c = true -> (c =? byte_order_mark) = false.
Proof.
  unfold is_json_ws. intros H.
  repeat (apply orb_true_iff in H as [H|H]);
    apply N.eqb_eq in H; subst c; reflexivity.
Qed.


Lemma json_loads_inv J v :
  json_loads J = Return v -> exists l pre r, document J v l pre r.
Proof.
  unfold json_loads.
  destruct (startswith J [byte_order_mark]); [discriminate|].
  destruct (scan_once (S (length J)) (skip_ws J)) as [obj rest| |] eqn:Hs; try discriminate.
  destruct (skip_ws rest) as [|x extra] eqn:Hr; [|discriminate].
  intros [= ->].
  destruct (scan_once_ext _ _ _ _ Hs) as (pre & E & Hne & Hd & Hext).
  destruct (lstrip_while_split is_json_ws J) as (l & EJ & Hl).
  fold (skip_ws J) in EJ. rewrite E in EJ.
  exists l, pre, rest. repeat split; try assumption.
  - now apply lstrip_while_nil_all.
  - now apply (skip_ws_head J pre rest).
Qed.

Lemma json_loads_intro v l pre r :
  document (l ++ pre ++ r) v l pre r -> json_loads (l ++ pre ++ r) = Return v.
Proof.
  intros (_ & Hl & Hr & (c & pre' & -> & Hc) & _ & Hext).
  unfold json_loads.
  assert (Hbom : startswith (l ++ (c :: pre') ++ r) [byte_order_mark] = false).
  { destruct l as [|w l'].
    - cbn [Datatypes.app]. rewrite startswith_bom_cons.
      destruct (c =? byte_order_mark) eqn:Eb; [|reflexivity].
      apply N.eqb_eq in Eb. subst c. exfalso.
      specialize (Hext (length (byte_order_mark :: pre')) [] (le_n _) I).
      cbn [Datatypes.app] in Hext. now apply scan_once_not_bom in Hext.
    - cbn [Datatypes.app]. rewrite startswith_bom_cons.
      cbn in Hl. apply andb_true_iff in Hl as [Hw _]. now apply json_ws_not_bom. }
  rewrite Hbom.
  assert (Hskip : skip_ws (l ++ (c :: pre') ++ r) = (c :: pre') ++ r).
  { cbn [Datatypes.app]. now apply skip_ws_app_stop. }
  rewrite Hskip, Hext.
  - unfold skip_ws. now rewrite lstrip_while_all.
  - rewrite !length_app. lia.
  - now apply number_safe_ws.
Qed.

(** Whitespace around a document does not change what it decodes to. *)
Lemma json_loads_pad J v l' r' :
  json_loads J = Return v ->
  forallb is_json_ws l' = true -> forallb is_json_ws r' = true ->
  json_loads (l' ++ J ++ r') = Return v.
Proof.
  intros H Hl' Hr'.
  destruct (json_loads_inv _ _ H) as (l & pre & r & -> & Hl & Hr & Hc & Hd & Hext).
  replace (l' ++ (l ++ pre ++ r) ++ r') with ((l' ++ l) ++ pre ++ (r ++ r'))
    by now rewrite <- !app_assoc.
  apply json_loads_intro. repeat split; try assumption.
  - rewrite forallb_app. now rewrite Hl', Hl.
  - rewrite forallb_app. now rewrite Hr', Hr.
Qed.

(** ... and neither does removing it. *)
Lemma json_loads_core J v l pre r :
  document J v l pre r -> json_loads pre = Return v.
Proof.
  intros (_ & Hl & Hr & Hc & Hd & Hext).
  replace pre with ([] ++ pre ++ []) by (cbn; apply app_nil_r).
  apply json_loads_intro. repeat split; try assumption; reflexivity.
Qed.

(** The fuel never runs out: a failure of [json_loads] is a failure of
    the decoder. *)
Lemma json_loads_never_out_of_fuel s e :
  json_loads s = Raise e -> exn_type e <> RecursionError.
Proof.
  unfold json_loads.
  destruct (startswith s [byte_order_mark]); [intros [= <-]; discriminate|].
  destruct (scan_once (S (length s)) (skip_ws s)) as [obj rest|err|] eqn:Hs.
  - destruct (skip_ws rest); [discriminate|]. intros [= <-]. discriminate.
  - intros [= <-]. destruct err; discriminate.
  - exfalso. apply (scan_once_fuel (S (length s)) (skip_ws s)); [|assumption].
    pose proof (skip_ws_length s). lia.
Qed.

(** * Properties of [get_risk_mapping] *)

(** Runs the monadic body with the string operations, the decoder and
    the request kept abstract. *)
Ltac run_body :=
  unfold get_risk_mapping, get_risk_mapping_run, get_risk_mapping_body, text_strip,
    answers, answers_without_text in *;
  generalize dependent json_loads; intros loads;
  generalize dependent strip; intros strip';
  generalize dependent strip_chars; intros strip_chars';
  generalize dependent fence_branch_of; intros branch_of;
  generalize dependent risk_request; intros request_of;
  intros;
  cbn [bind ret M_monad try_except send lift get_raw_text set_raw_text
       raw_text sent new_frame fst snd].

Ltac run_call :=
  match goal with H : generate_content _ _ = _ |- _ => rewrite H end;
  cbn [with_text raw_text sent fst snd].

(** The request is sent exactly once, whatever the model does. *)
Lemma get_risk_mapping_run_sent client finding_text :
  snd (get_risk_mapping_run client finding_text)
  = [risk_request (MASTER_PROMPT finding_text)].
Proof.
  run_body.
  destruct (generate_content client (request_of (MASTER_PROMPT finding_text)))
    as [[resp|]|e];
    cbn [raw_text sent fst snd Datatypes.app]; [|reflexivity|reflexivity].
  destruct (branch_of (strip' (text resp)));
    cbn [bind ret M_monad try_except send lift get_raw_text set_raw_text
         raw_text sent new_frame fst snd];
    match goal with |- context [loads ?x] => destruct (loads x) end;
    reflexivity.
Qed.

(** When the model answers, the result is decided by the decoder on the
    cleaned text; the handler reads the cleaned text as well. *)
Lemma get_risk_mapping_answered client finding_text resp :
  answers client finding_text (Return resp) ->
  get_risk_mapping client finding_text =
  match json_loads (cleaned (text resp)) with
  | Return v => Return v
  | Raise e => Return (error_descriptor (exn_str e) (slice_to 50 (cleaned (text resp))))
  end.
Proof.
  unfold cleaned, strip_fences. run_body.
  run_call.
  destruct (branch_of (strip' (text resp)));
    cbn [bind ret M_monad try_except send lift get_raw_text set_raw_text
         raw_text sent new_frame fst snd];
    match goal with |- context [loads ?x] => destruct (loads x) end;
    reflexivity.
Qed.

(** When the call raises, the handler runs with [raw_text] unbound. *)
Lemma get_risk_mapping_call_raises client finding_text e :
  answers client finding_text (Raise e) ->
  get_risk_mapping client finding_text = Raise (unbound_local "raw_text").
Proof.
  run_body.
  run_call. reflexivity.
Qed.

(** When the answer has no text part, [strip] cannot be called and the
    handler runs with [raw_text] unbound as well. *)
Lemma get_risk_mapping_no_text client finding_text :
  answers_without_text client finding_text ->
  get_risk_mapping client finding_text = Raise (unbound_local "raw_text").
Proof.
  run_body. run_call. reflexivity.
Qed.

(** The frame the body leaves behind holds the cleaned text. *)
Lemma get_risk_mapping_body_frame client finding_text resp :
  answers client finding_text (Return resp) ->
  raw_text (snd (get_risk_mapping_body client finding_text new_frame))
  = Some (cleaned (text resp)).
Proof.
  unfold cleaned, strip_fences. run_body.
  run_call.
  destruct (branch_of (strip' (text resp)));
    cbn [bind ret M_monad try_except send lift get_raw_text set_raw_text
         raw_text sent new_frame fst snd];
    match goal with |- context [loads ?x] => destruct (loads x) end;
    reflexivity.
Qed.

(** ** Cleaning a text that holds a JSON object *)

Lemma json_ws_isspace c : is_json_ws c = true -> isspace c = true.
Proof.
  unfold is_json_ws. intros H.
  repeat (apply orb_true_iff in H as [H|H]);
    apply N.eqb_eq in H; subst c; reflexivity.
Qed.

Lemma json_ws_not_fence c : is_json_ws c = true -> mem_char json_fence c = false.
Proof.
  unfold is_json_ws. intros H.
  repeat (apply orb_true_iff in H as [H|H]);
    apply N.eqb_eq in H; subst c; reflexivity.
Qed.

Lemma forallb_impl (p q : N -> bool) s :
  (forall c, p c = true -> q c = true) -> forallb p s = true -> forallb q s = true.
Proof.
  intros Hpq. induction s as [|c s IH]; cbn; [reflexivity|].
  intros H. apply andb_true_iff in H as [Hc Hs]. now rewrite (Hpq _ Hc), IH.
Qed.

Lemma strip_while_clean q L x R :
  clean_ends q x -> forallb q L = true -> forallb q R = true ->
  strip_while q (L ++ x ++ R) = x.
Proof.
  intros (a & mid & b & -> & Ha & Hb) HL HR. now apply strip_while_core.
Qed.

Lemma strip_while_clean_id q x : clean_ends q x -> strip_while q x = x.
Proof.
  intros H. rewrite <- (strip_while_clean q [] x [] H eq_refl eq_refl) at 2.
  cbn [Datatypes.app]. now rewrite app_nil_r.
Qed.

(** Padding with characters that [q] rejects keeps the ends clean. *)
Lemma clean_ends_pad q W1 core W2 :
  clean_ends q core ->
  forallb (fun c => negb (q c)) W1 = true ->
  forallb (fun c => negb (q c)) W2 = true ->
  clean_ends q (W1 ++ core ++ W2).
Proof.
  intros (a & mid & b & -> & Ha & Hb) H1 H2.
  assert (Hlast : exists b' mid', (a :: mid ++ [b]) ++ W2 = a :: mid' ++ [b'] /\ q b' = false).
  { destruct W2 as [|w W2'] using rev_ind.
    - exists b, mid. now rewrite app_nil_r.
    - exists w, (mid ++ b :: W2'). split; [now norm_app|].
      rewrite forallb_app in H2. apply andb_true_iff in H2 as [_ H2].
      cbn in H2. rewrite andb_true_r in H2. now apply negb_true_iff in H2. }
  destruct Hlast as (b' & mid' & E & Hb').
  rewrite E. destruct W1 as [|w W1'].
  - now exists a, mid', b'.
  - exists w, (W1' ++ a :: mid'), b'. split; [now norm_app|].
    cbn in H1. apply andb_true_iff in H1 as [H1 _].
    apply negb_true_iff in H1. now split.
Qed.

Lemma object_text_clean q body :
  q 123 = false -> q 125 = false -> clean_ends q (123 :: body ++ [125]).
Proof. intros H1 H2. now exists 123, body, 125. Qed.

Lemma startswith_app p x : startswith (p ++ x) p = true.
Proof.
  induction p as [|c p IH]; [destruct x; reflexivity|].
  cbn. now rewrite N.eqb_refl, IH.
Qed.

Lemma json_fence_chars : json_fence = [96; 96; 96; 106; 115; 111; 110].
Proof. reflexivity. Qed.

Lemma plain_fence_chars : plain_fence = [96; 96; 96].
Proof. reflexivity. Qed.

(** A text that does not start with a back-quote is left alone by the
    fence test. *)
Lemma fence_branch_no_fence a x :
  (a =? 96) = false -> fence_branch_of (a :: x) = NoFence.
Proof.
  intros H. unfold fence_branch_of. rewrite json_fence_chars, plain_fence_chars.
  cbn [startswith]. now rewrite H.
Qed.

Lemma mem_plain_fence_json c :
  mem_char json_fence c = false -> mem_char plain_fence c = false.
Proof.
  rewrite json_fence_chars, plain_fence_chars. unfold mem_char. cbn [existsb].
  intros H. apply orb_false_iff in H as [H _]. now rewrite H.
Qed.

Lemma clean_ends_plain_fence x :
  clean_ends (mem_char json_fence) x -> clean_ends (mem_char plain_fence) x.
Proof.
  intros (a & mid & b & -> & Ha & Hb).
  exists a, mid, b. auto using mem_plain_fence_json.
Qed.

Lemma json_ws_outside_fence s :
  forallb is_json_ws s = true ->
  forallb (fun c => negb (mem_char json_fence c)) s = true.
Proof.
  apply forallb_impl. intros c Hc. now rewrite json_ws_not_fence.
Qed.

(** An object text, padded with JSON whitespace, starts and ends outside
    the fence characters. *)
Lemma padded_object_clean l' l body r r' :
  forallb is_json_ws l' = true -> forallb is_json_ws l = true ->
  forallb is_json_ws r = true -> forallb is_json_ws r' = true ->
  clean_ends (mem_char json_fence) ((l' ++ l) ++ (123 :: body ++ [125]) ++ (r ++ r')).
Proof.
  intros Hl' Hl Hr Hr'.
  apply clean_ends_pad.
  - now apply object_text_clean.
  - apply json_ws_outside_fence. rewrite forallb_app. now rewrite Hl', Hl.
  - apply json_ws_outside_fence. rewrite forallb_app. now rewrite Hr, Hr'.
Qed.

(** A text that decodes to an object is cleaned to the object text. *)
Lemma cleaned_object J d l pre r :
  document J (VDict d) l pre r -> cleaned J = pre.
Proof.
  intros (-> & Hl & Hr & _ & Hd & _).
  destruct (Hd d eq_refl) as (body & ->).
  unfold cleaned, strip.
  rewrite strip_while_clean.
  - unfold strip_fences. now rewrite fence_branch_no_fence.
  - now apply object_text_clean.
  - revert Hl. apply forallb_impl, json_ws_isspace.
  - revert Hr. apply forallb_impl, json_ws_isspace.
Qed.

Lemma fenced_text_stays open inner :
  open = json_fence \/ open = plain_fence ->
  strip (open ++ inner ++ plain_fence) = open ++ inner ++ plain_fence.
Proof.
  intros H. apply strip_while_clean_id.
  exists 96, (tl open ++ inner ++ [96; 96]), 96.
  split; [|split; reflexivity].
  destruct H as [-> | ->]; rewrite ?json_fence_chars, plain_fence_chars;
    cbn [tl]; now norm_app.
Qed.

(** Wrapped in a tagged fence, the text between the fences is what
    reaches the decoder. *)
Lemma cleaned_tagged inner :
  clean_ends (mem_char json_fence) inner ->
  cleaned (json_fence ++ inner ++ plain_fence) = inner.
Proof.
  intros Hc. unfold cleaned. rewrite fenced_text_stays by now left.
  unfold strip_fences, fence_branch_of. rewrite startswith_app.
  unfold strip_chars. rewrite strip_while_clean by (assumption || reflexivity).
  apply strip_while_clean_id. now apply clean_ends_plain_fence.
Qed.

(** The same for a plain fence. *)
Lemma cleaned_plain inner :
  clean_ends (mem_char json_fence) inner ->
  cleaned (plain_fence ++ inner ++ plain_fence) = inner.
Proof.
  intros Hc. unfold cleaned. rewrite fenced_text_stays by now right.
  assert (Hbranch : fence_branch_of (plain_fence ++ inner ++ plain_fence) = PlainFence).
  { destruct Hc as (a & mid & b & -> & Ha & _).
    unfold fence_branch_of. rewrite startswith_app.
    rewrite json_fence_chars, plain_fence_chars. cbn [Datatypes.app startswith N.eqb Pos.eqb andb].
    rewrite json_fence_chars in Ha. unfold mem_char in Ha. cbn [existsb] in Ha.
    repeat (apply orb_false_iff in Ha as [? Ha]).
    match goal with H : (a =? 106) = false |- _ => now rewrite H end. }
  unfold strip_fences. rewrite Hbranch.
  unfold strip_chars. apply strip_while_clean; try reflexivity.
  now apply clean_ends_plain_fence.
Qed.

(** * Properties of the script *)

Lemma render_results_dict d :
  render_results (VDict d) = (results_events d, Next tt).
Proof. reflexivity. Qed.

(** What [analyze] does once the mapping is a dictionary. *)
Lemma analyze_dict client finding_text d :
  get_risk_mapping client finding_text = Return (VDict d) ->
  analyze client finding_text =
  (call_events finding_text ++
     match dict_lookup d (lit "error") with
     | Some message => [st_error [Shown message]]
     | None => results_events d
     end,
   Next tt).
Proof.
  intros H. unfold analyze, get_risk_mapping in *.
  pose proof (get_risk_mapping_run_sent client finding_text) as Hs.
  destruct (get_risk_mapping_run client finding_text) as [o reqs].
  cbn [fst snd] in H, Hs. subst o reqs.
  unfold call_events.
  cbn [bind ret Script_monad emit emits eval py_in py_getitem map Datatypes.app].
  unfold dict_contains.
  destruct (dict_lookup d (lit "error")) as [message|]; [reflexivity|].
  rewrite render_results_dict. reflexivity.
Qed.

(** When [get_risk_mapping] raises, the exception leaves the script. *)
Lemma analyze_raises client finding_text e :
  get_risk_mapping client finding_text = Raise e ->
  analyze client finding_text = (call_events finding_text, Halt (Uncaught e)).
Proof.
  intros H. unfold analyze, get_risk_mapping in *.
  pose proof (get_risk_mapping_run_sent client finding_text) as Hs.
  destruct (get_risk_mapping_run client finding_text) as [o reqs].
  cbn [fst snd] in H, Hs. subst o reqs. reflexivity.
Qed.

Lemma truthy_nonempty s : s <> [] -> truthy s = true.
Proof. destruct s; [congruence | reflexivity]. Qed.

(** A run in which the button was pressed on a non-empty input. *)
Lemma run_triggered w client :
  new_client w = Return client ->
  button_clicked w = true ->
  user_input w <> [] ->
  run w =
  if environ_has (environ w) (lit "GEMINI_API_KEY") then
    match analyze client (user_input w) with
    | (evs, Next _) => (page_header ++ evs, Finished)
    | (evs, Halt e) => (page_header ++ evs, e)
    end
  else (page_header ++ [api_key_banner], Finished).
Proof.
  intros Hc Hb Hi. unfold run, app. rewrite Hc, Hb, (truthy_nonempty _ Hi).
  cbn [andb bind Script_monad emits].
  destruct (environ_has (environ w) (lit "GEMINI_API_KEY")); cbn [negb].
  - destruct (analyze client (user_input w)) as [evs [[]|e]]; reflexivity.
  - reflexivity.
Qed.


Lemma str_contains_app pre x post : str_contains (pre ++ x ++ post) x = true.
Proof.
  induction pre as [|c pre IH].
  - cbn [Datatypes.app]. destruct (x ++ post) eqn:E; cbn [str_contains];
      rewrite <- E, startswith_app; reflexivity.
  - cbn [Datatypes.app str_contains]. rewrite IH. apply orb_true_r.
Qed.

Lemma json_fence_is_fence s :
  startswith s json_fence = true -> startswith s plain_fence = true.
Proof.
  rewrite json_fence_chars, plain_fence_chars.
  destruct s as [|a [|b [|c s]]]; cbn [startswith]; try discriminate;
    rewrite ?andb_false_r; try discriminate.
  intros H.
  apply andb_true_iff in H as [Ha H]. apply andb_true_iff in H as [Hb H].
  apply andb_true_iff in H as [Hc _].
  rewrite Ha, Hb, Hc. destruct s; reflexivity.
Qed.

(** The stub client that answers with a fixed text. *)
Lemma get_risk_mapping_text_client rawText finding_text :
  get_risk_mapping (text_client rawText) finding_text =
  match json_loads (cleaned rawText) with
  | Return v => Return v
  | Raise e => Return (error_descriptor (exn_str e) (slice_to 50 (cleaned rawText)))
  end.
Proof.
  now rewrite (get_risk_mapping_answered (text_client rawText) finding_text
                 {| text := rawText |} eq_refl).
Qed.

(** * The claims *)

(** ** The parsing step *)

(** C1, refuted as stated: the text of [summary_only] decodes to a JSON
    object that lacks five of the six required keys, and the parsing step
    returns that object, not an error descriptor. *)
Lemma missing_key_is_not_an_error :
  json_loads summary_only = Return (VDict [(lit "finding_summary", VStr (lit "x"))]) /\
  missing_required [(lit "finding_summary", VStr (lit "x"))] /\
  ~ is_error_descriptor (get_risk_mapping (text_client summary_only) sample_finding).
Proof.
  split; [vm_compute; reflexivity|]. split.
  - exists (lit "mitre_tactic"). split; [cbn; auto | reflexivity].
  - intros (details & snippet & H).
    replace (get_risk_mapping (text_client summary_only) sample_finding)
      with (Return (VDict [(lit "finding_summary", VStr (lit "x"))])) in H
      by (vm_compute; reflexivity).
    unfold error_descriptor in H. cbn in H. discriminate.
Qed.

(** C1, as amended: a text that is cleaned to a JSON object lacking some
    of the six required keys is returned as that object, unchanged, with
    the keys it has: the parsing step checks no key.  In particular the
    result is not an error descriptor when the object has no key
    ["error"]. *)
Theorem object_with_missing_keys_is_returned client finding_text resp d :
  answers client finding_text (Return resp) ->
  json_loads (cleaned (text resp)) = Return (VDict d) ->
  missing_required d ->
  get_risk_mapping client finding_text = Return (VDict d) /\
  (dict_contains d (lit "error") = false ->
   ~ is_error_descriptor (get_risk_mapping client finding_text)).
Proof.
  intros Ha Hj _. rewrite (get_risk_mapping_answered _ _ _ Ha), Hj.
  split; [reflexivity|].
  intros Hd (details & snippet & H). injection H as ->.
  discriminate Hd.
Qed.

Lemma object_with_missing_keys_is_returned_witness :
  get_risk_mapping (text_client summary_only) sample_finding
  = Return (VDict [(lit "finding_summary", VStr (lit "x"))]) /\
  ~ is_error_descriptor (get_risk_mapping (text_client summary_only) sample_finding).
Proof.
  destruct (object_with_missing_keys_is_returned
              (text_client summary_only) sample_finding {| text := summary_only |}
              [(lit "finding_summary", VStr (lit "x"))])
    as [Hret Hnot].
  - reflexivity.
  - vm_compute; reflexivity.
  - exists (lit "mitre_tactic"). split; [cbn; auto | reflexivity].
  - split; [exact Hret|]. apply Hnot. reflexivity.
Defined.

(** C2, where the code departs from the claim: when the call to the model
    raises, the handler reads [raw_text] before any assignment, and the
    resulting [UnboundLocalError] leaves [get_risk_mapping]; no error
    descriptor is returned. *)
Theorem model_failure_escapes_handler client finding_text e :
  answers client finding_text (Raise e) ->
  get_risk_mapping client finding_text = Raise (unbound_local "raw_text") /\
  ~ is_error_descriptor (get_risk_mapping client finding_text).
Proof.
  intros Ha. rewrite (get_risk_mapping_call_raises _ _ _ Ha).
  split; [reflexivity|]. intros (details & snippet & H). discriminate.
Qed.

Lemma model_failure_escapes_handler_witness :
  get_risk_mapping (stub_client (Raise (Exn APIError (lit "503 UNAVAILABLE")))) sample_finding
  = Raise (unbound_local "raw_text").
Proof.
  apply (model_failure_escapes_handler
           (stub_client (Raise (Exn APIError (lit "503 UNAVAILABLE"))))
           sample_finding (Exn APIError (lit "503 UNAVAILABLE"))).
  reflexivity.
Defined.

(** C3, refuted as stated: the snippet is not taken from the raw text.
    For [padded_apology] the white space around the text is gone from the
    snippet; for the fenced text [fenced_apology], which decoding
    rejects, the first characters of the raw text do not occur in the
    message at all. *)
Lemma snippet_is_not_the_raw_text :
  (get_risk_mapping (text_client padded_apology) sample_finding
   = Return (error_descriptor (lit "Expecting value: line 1 column 1 (char 0)")
                              (lit "Sorry, I cannot help with that")) /\
   str_contains
     (error_message (lit "Expecting value: line 1 column 1 (char 0)")
                    (lit "Sorry, I cannot help with that"))
     (slice_to 50 padded_apology) = false) /\
  strip fenced_apology = fenced_apology /\
  json_loads (cleaned fenced_apology)
  = Raise (json_decode_error "Expecting value" (cleaned fenced_apology) 1) /\
  get_risk_mapping (text_client fenced_apology) sample_finding
  = Return (error_descriptor (lit "Expecting value: line 2 column 1 (char 1)")
                             ([newline] ++ lit "not json" ++ [newline])) /\
  str_contains
    (error_message (lit "Expecting value: line 2 column 1 (char 1)")
                   ([newline] ++ lit "not json" ++ [newline]))
    (slice_to 50 fenced_apology) = false.
Proof. repeat split; vm_compute; reflexivity. Qed.

(** C3, as amended: when the text, trimmed of the white space around it,
    begins with no fence and decoding fails, the error descriptor holds
    the fixed prefix, the description of the failure and the first
    [min 50 length] characters of the trimmed text, all of it when it has
    at most 50 characters. *)
Theorem parse_failure_descriptor client finding_text resp e :
  answers client finding_text (Return resp) ->
  fence_branch_of (strip (text resp)) = NoFence ->
  json_loads (strip (text resp)) = Raise e ->
  let snippet := slice_to 50 (strip (text resp)) in
  get_risk_mapping client finding_text
  = Return (VDict [(lit "error",
                    VStr (lit "AI Parsing Error: Could not get structured output"
                            ++ lit ". Details: " ++ exn_str e
                            ++ lit ". Raw Response (start): " ++ snippet ++ lit "..."))]) /\
  length snippet = Nat.min 50 (length (strip (text resp))) /\
  ((length (strip (text resp)) <= 50)%nat -> snippet = strip (text resp)).
Proof.
  intros Ha Hb Hj snippet.
  assert (Ec : cleaned (text resp) = strip (text resp))
    by (unfold cleaned, strip_fences; now rewrite Hb).
  rewrite (get_risk_mapping_answered _ _ _ Ha), Ec, Hj.
  split; [reflexivity|]. split.
  - apply length_firstn.
  - intros Hlen. now apply firstn_all2.
Qed.

Lemma parse_failure_descriptor_witness :
  get_risk_mapping (text_client (lit "Sorry, I cannot help with that")) sample_finding
  = Return (VDict [(lit "error",
                    VStr (lit "AI Parsing Error: Could not get structured output"
                            ++ lit ". Details: "
                            ++ lit "Expecting value: line 1 column 1 (char 0)"
                            ++ lit ". Raw Response (start): "
                            ++ lit "Sorry, I cannot help with that" ++ lit "..."))]).
Proof.
  apply (parse_failure_descriptor
           (text_client (lit "Sorry, I cannot help with that")) sample_finding
           {| text := lit "Sorry, I cannot help with that" |}
           (json_decode_error "Expecting value" (lit "Sorry, I cannot help with that") 0)).
  - reflexivity.
  - reflexivity.
  - vm_compute; reflexivity.
Defined.

(** C4: a text that is exactly a valid JSON object with the six required
    string fields is returned as the decoded record, unchanged: every
    required field reads back as the string the text holds, whatever that
    string is. *)
Theorem valid_object_is_returned_unchanged client finding_text resp d :
  answers client finding_text (Return resp) ->
  json_loads (text resp) = Return (VDict d) ->
  six_string_fields d ->
  get_risk_mapping client finding_text = Return (VDict d) /\
  forall k, In k (schema_required RISK_SCHEMA) ->
            exists s, dict_lookup d k = Some (VStr s) /\
                      py_get (VDict d) k NA = Return (VStr s).
Proof.
  intros Ha Hj Hsix.
  destruct (json_loads_inv _ _ Hj) as (l & pre & r & Hdoc).
  rewrite (get_risk_mapping_answered _ _ _ Ha).
  rewrite (cleaned_object _ _ _ _ _ Hdoc), (json_loads_core _ _ _ _ _ Hdoc).
  split; [reflexivity|].
  intros k Hk. destruct (Hsix k Hk) as (s & Hs).
  exists s. split; [assumption|]. cbn [py_get]. unfold dict_get. now rewrite Hs.
Qed.

Lemma sample_mapping_six_string_fields : six_string_fields sample_mapping.
Proof.
  intros k Hk. cbn in Hk.
  repeat (destruct Hk as [<-|Hk]; [eexists; reflexivity|]).
  destruct Hk.
Qed.

Lemma valid_object_is_returned_unchanged_witness :
  get_risk_mapping (text_client sample_json) sample_finding = Return (VDict sample_mapping).
Proof.
  apply (valid_object_is_returned_unchanged
           (text_client sample_json) sample_finding {| text := sample_json |} sample_mapping).
  - reflexivity.
  - vm_compute; reflexivity.
  - exact sample_mapping_six_string_fields.
Defined.

(** C5: for a valid JSON object [J], the text [J] wrapped in a tagged
    fence, the text [J] wrapped in a plain fence and [J] itself all yield
    the same record; the fences may be separated from [J] by JSON
    whitespace (a line feed, or nothing). *)
Theorem fenced_object_yields_same_record finding_text J d l r :
  json_loads J = Return (VDict d) ->
  forallb is_json_ws l = true ->
  forallb is_json_ws r = true ->
  get_risk_mapping (text_client (json_fence ++ l ++ J ++ r ++ plain_fence)) finding_text
  = get_risk_mapping (text_client J) finding_text /\
  get_risk_mapping (text_client (plain_fence ++ l ++ J ++ r ++ plain_fence)) finding_text
  = get_risk_mapping (text_client J) finding_text /\
  get_risk_mapping (text_client J) finding_text = Return (VDict d).
Proof.
  intros Hj Hl Hr.
  destruct (json_loads_inv _ _ Hj) as (l0 & pre & r0 & Hdoc).
  assert (Hbare : get_risk_mapping (text_client J) finding_text = Return (VDict d)).
  { rewrite get_risk_mapping_text_client.
    now rewrite (cleaned_object _ _ _ _ _ Hdoc), (json_loads_core _ _ _ _ _ Hdoc). }
  assert (Hinner : clean_ends (mem_char json_fence) (l ++ J ++ r)).
  { destruct Hdoc as (-> & Hl0 & Hr0 & _ & Hd & _).
    destruct (Hd d eq_refl) as (body & ->).
    replace (l ++ (l0 ++ (123 :: body ++ [125]) ++ r0) ++ r)
      with ((l ++ l0) ++ (123 :: body ++ [125]) ++ (r0 ++ r))
      by now rewrite <- !app_assoc.
    now apply padded_object_clean. }
  assert (Hloads : json_loads (l ++ J ++ r) = Return (VDict d))
    by now apply json_loads_pad.
  rewrite Hbare. repeat split.
  - rewrite get_risk_mapping_text_client.
    replace (json_fence ++ l ++ J ++ r ++ plain_fence)
      with (json_fence ++ (l ++ J ++ r) ++ plain_fence) by now rewrite <- !app_assoc.
    now rewrite (cleaned_tagged _ Hinner), Hloads.
  - rewrite get_risk_mapping_text_client.
    replace (plain_fence ++ l ++ J ++ r ++ plain_fence)
      with (plain_fence ++ (l ++ J ++ r) ++ plain_fence) by now rewrite <- !app_assoc.
    now rewrite (cleaned_plain _ Hinner), Hloads.
Qed.

Lemma fenced_object_yields_same_record_witness :
  get_risk_mapping
    (text_client (json_fence ++ [newline] ++ sample_json ++ [newline] ++ plain_fence))
    sample_finding
  = get_risk_mapping (text_client sample_json) sample_finding /\
  get_risk_mapping
    (text_client (plain_fence ++ [newline] ++ sample_json ++ [newline] ++ plain_fence))
    sample_finding
  = get_risk_mapping (text_client sample_json) sample_finding /\
  get_risk_mapping (text_client sample_json) sample_finding = Return (VDict sample_mapping).
Proof.
  apply (fenced_object_yields_same_record
           sample_finding sample_json sample_mapping [newline] [newline]).
  - vm_compute; reflexivity.
  - reflexivity.
  - reflexivity.
Defined.

(** C6: when the trimmed text begins with the tagged fence, it also
    passes the plain-fence test, and it is the tagged arm that runs:
    [raw_text] ends up stripped of the characters of the tagged fence and
    then of back-quotes. *)
Theorem tagged_fence_is_tested_first client finding_text resp :
  answers client finding_text (Return resp) ->
  startswith (strip (text resp)) json_fence = true ->
  startswith (strip (text resp)) plain_fence = true /\
  fence_branch_of (strip (text resp)) = TaggedFence /\
  raw_text (snd (get_risk_mapping_body client finding_text new_frame))
  = Some (strip_chars (strip_chars (strip (text resp)) json_fence) plain_fence).
Proof.
  intros Ha Hs. split; [now apply json_fence_is_fence|].
  assert (Hb : fence_branch_of (strip (text resp)) = TaggedFence)
    by (unfold fence_branch_of; now rewrite Hs).
  split; [assumption|].
  rewrite (get_risk_mapping_body_frame _ _ _ Ha).
  unfold cleaned, strip_fences. now rewrite Hb.
Qed.

Lemma tagged_fence_is_tested_first_witness :
  fence_branch_of (strip (lit "```json{}```")) = TaggedFence /\
  raw_text (snd (get_risk_mapping_body (text_client (lit "```json{}```")) sample_finding new_frame))
  = Some (lit "{}").
Proof.
  destruct (tagged_fence_is_tested_first
              (text_client (lit "```json{}```")) sample_finding
              {| text := lit "```json{}```" |} eq_refl eq_refl) as (_ & Hb & Hr).
  split; [exact Hb|]. rewrite Hr. reflexivity.
Defined.

(** The order of the two tests matters: the plain arm would leave the
    language tag in place. *)
Lemma plain_arm_would_keep_the_tag :
  strip_chars (lit "```json{}```") plain_fence = lit "json{}" /\
  strip_fences (lit "```json{}```") = lit "{}".
Proof. split; reflexivity. Qed.

(** ** The prompt *)

(** C7: for a non-empty finding, the prompt is the fixed preamble, the
    finding verbatim, and a closing line feed; the finding occurs in it as
    a contiguous substring, nothing is cut, and building the prompt cannot
    fail: the request with this prompt is sent whatever the model does. *)
Theorem prompt_embeds_finding_verbatim finding_text :
  finding_text <> [] ->
  str_contains (MASTER_PROMPT finding_text) finding_text = true /\
  (exists preamble closing,
      MASTER_PROMPT finding_text = preamble ++ finding_text ++ closing /\
      MASTER_PROMPT [] = preamble ++ closing) /\
  length (MASTER_PROMPT finding_text) = (length (MASTER_PROMPT []) + length finding_text)%nat /\
  forall client,
    snd (get_risk_mapping_run client finding_text)
    = [risk_request (MASTER_PROMPT finding_text)] /\
    contents (risk_request (MASTER_PROMPT finding_text)) = MASTER_PROMPT finding_text.
Proof.
  intros _.
  assert (Hshape : exists preamble closing,
             MASTER_PROMPT finding_text = preamble ++ finding_text ++ closing /\
             MASTER_PROMPT [] = preamble ++ closing).
  { exists (removelast (MASTER_PROMPT [])), [newline]. split; reflexivity. }
  split; [|split; [exact Hshape | split]].
  - destruct Hshape as (preamble & closing & -> & _). apply str_contains_app.
  - destruct Hshape as (preamble & closing & -> & ->).
    rewrite !length_app. lia.
  - intros client. split; [apply get_risk_mapping_run_sent | reflexivity].
Qed.

Lemma prompt_embeds_finding_verbatim_witness :
  str_contains (MASTER_PROMPT sample_finding) sample_finding = true.
Proof.
  apply (prompt_embeds_finding_verbatim sample_finding). discriminate.
Defined.

(** ** The script *)

(** C8: when the button is pressed on a non-empty input while
    [GEMINI_API_KEY] is absent from the environment, the run shows the
    page and one error banner, sends nothing to the model, and ends
    normally. *)
Theorem missing_key_blocks_the_request w client :
  new_client w = Return client ->
  button_clicked w = true ->
  user_input w <> [] ->
  environ_has (environ w) (lit "GEMINI_API_KEY") = false ->
  run w = (page_header ++ [api_key_banner], Finished) /\
  has_banner (fst (run w)) = true /\
  existsb is_model_call (fst (run w)) = false.
Proof.
  intros Hc Hb Hi He. rewrite (run_triggered _ _ Hc Hb Hi), He.
  repeat split.
Qed.

Lemma missing_key_blocks_the_request_witness :
  run (sample_session (text_client sample_json) [])
  = (page_header ++ [api_key_banner], Finished).
Proof.
  apply (missing_key_blocks_the_request
           (sample_session (text_client sample_json) []) (text_client sample_json)).
  - reflexivity.
  - reflexivity.
  - discriminate.
  - reflexivity.
Defined.

(** C9: when [get_risk_mapping] returns a JSON object, the error banner
    is shown exactly when the object has the key ["error"], and then the
    banner shows the value of that key: an answer of the model that
    carries an ["error"] field is displayed like a parse failure. *)
Theorem banner_iff_error_key w client d :
  new_client w = Return client ->
  button_clicked w = true ->
  user_input w <> [] ->
  environ_has (environ w) (lit "GEMINI_API_KEY") = true ->
  get_risk_mapping client (user_input w) = Return (VDict d) ->
  has_banner (fst (run w)) = dict_contains d (lit "error") /\
  (forall message,
      dict_lookup d (lit "error") = Some message ->
      run w = (page_header ++ call_events (user_input w) ++ [st_error [Shown message]],
               Finished)) /\
  (dict_lookup d (lit "error") = None ->
   run w = (page_header ++ call_events (user_input w) ++ results_events d, Finished)).
Proof.
  intros Hc Hb Hi He Hm.
  rewrite (run_triggered _ _ Hc Hb Hi), He, (analyze_dict _ _ _ Hm).
  unfold dict_contains.
  destruct (dict_lookup d (lit "error")) as [message|].
  - split; [reflexivity|]. split; [|discriminate].
    now intros m [= <-].
  - split; [reflexivity|]. split; [discriminate|]. reflexivity.
Qed.

Lemma banner_iff_error_key_witness :
  run (sample_session (text_client error_answer) [(lit "GEMINI_API_KEY", lit "k")])
  = (page_header ++ call_events sample_finding
       ++ [st_error [Shown (VStr (lit "quota exceeded"))]],
     Finished).
Proof.
  destruct (banner_iff_error_key
              (sample_session (text_client error_answer) [(lit "GEMINI_API_KEY", lit "k")])
              (text_client error_answer)
              [(lit "error", VStr (lit "quota exceeded"))])
    as (_ & Hshown & _).
  - reflexivity.
  - reflexivity.
  - discriminate.
  - reflexivity.
  - vm_compute; reflexivity.
  - apply Hshown. reflexivity.
Defined.

(** C10: rendering a record never fails on a missing key: each of the six
    fields is read with the default ["N/A"], which is what is displayed
    for a field the record lacks. *)
Theorem missing_fields_render_as_NA d :
  render_results (VDict d) = (results_events d, Next tt) /\
  (forall k, dict_contains d k = false -> dict_get d k NA = VStr (lit "N/A")) /\
  (forall k v, dict_lookup d k = Some v -> dict_get d k NA = v) /\
  forall k, py_get (VDict d) k NA = Return (dict_get d k NA).
Proof.
  split; [apply render_results_dict|]. split; [|split].
  - intros k. unfold dict_contains, dict_get.
    destruct (dict_lookup d k); [discriminate | reflexivity].
  - intros k v H. unfold dict_get. now rewrite H.
  - reflexivity.
Qed.

Lemma missing_fields_render_as_NA_witness :
  render_results (VDict [(lit "finding_summary", VStr (lit "x"))])
  = (results_events [(lit "finding_summary", VStr (lit "x"))], Next tt) /\
  dict_get [(lit "finding_summary", VStr (lit "x"))] (lit "mitre_tactic") NA
  = VStr (lit "N/A").
Proof.
  destruct (missing_fields_render_as_NA [(lit "finding_summary", VStr (lit "x"))])
    as (Hr & Hna & _).
  split; [exact Hr|]. apply Hna. reflexivity.
Defined.

(** ** Stripping, in general *)

Lemma lstrip_while_app_cases p t r :
  lstrip_while p (t ++ r) =
  if forallb p t then lstrip_while p r else lstrip_while p t ++ r.
Proof.
  induction t as [|c t IH]; [reflexivity|].
  cbn [Datatypes.app lstrip_while forallb].
  destruct (p c); [apply IH | reflexivity].
Qed.

Lemma strip_while_all_nil p s : forallb p s = true -> strip_while p s = [].
Proof.
  intros H. unfold strip_while. now rewrite lstrip_while_all.
Qed.

(** Characters of the stripped set around a text do not change what
    stripping leaves. *)
Lemma strip_while_pad p l t r :
  forallb p l = true -> forallb p r = true ->
  strip_while p (l ++ t ++ r) = strip_while p t.
Proof.
  intros Hl Hr. unfold strip_while.
  rewrite lstrip_while_app by assumption.
  rewrite lstrip_while_app_cases.
  destruct (forallb p t) eqn:Ht.
  - rewrite (lstrip_while_all p r Hr), (lstrip_while_all p t Ht). reflexivity.
  - now apply rstrip_while_app.
Qed.

Lemma lstrip_while_suffix p s : exists l, s = l ++ lstrip_while p s.
Proof. destruct (lstrip_while_split p s) as (l & E & _). now exists l. Qed.

(** What stripping leaves neither starts nor ends with a stripped
    character. *)
Lemma strip_while_ends p s : ends_outside p (strip_while p s).
Proof.
  unfold strip_while, rstrip_while.
  set (u := lstrip_while p s).
  set (w := lstrip_while p (rev u)).
  destruct (lstrip_while_suffix p (rev u)) as (l & E). fold w in E.
  assert (Eu : u = rev w ++ rev l).
  { rewrite <- (rev_involutive u), E, rev_app_distr. reflexivity. }
  intros c rest [H|H].
  - (* the first character is the first character of [u] *)
    rewrite H in Eu. cbn [Datatypes.app] in Eu.
    apply (lstrip_while_head p s c (rest ++ rev l)). exact Eu.
  - (* the last character is the first character of [w] *)
    assert (Ew : w = c :: rev rest).
    { rewrite <- (rev_involutive w), H, rev_app_distr. reflexivity. }
    apply (lstrip_while_head p (rev u) c (rev rest)). exact Ew.
Qed.

Lemma ends_outside_strip_id p x : ends_outside p x -> strip_while p x = x.
Proof.
  intros H. unfold strip_while.
  assert (E1 : lstrip_while p x = x).
  { destruct x as [|c r]; [reflexivity|].
    apply lstrip_while_stop. apply (H c r). now left. }
  rewrite E1. unfold rstrip_while.
  destruct (rev x) as [|c r] eqn:E; [now rewrite <- (rev_involutive x), E|].
  rewrite lstrip_while_stop.
  - now rewrite <- E, rev_involutive.
  - apply (H c (rev r)). right.
    rewrite <- (rev_involutive x), E. reflexivity.
Qed.

Lemma ends_outside_weaken (p q : N -> bool) x :
  (forall c, p c = false -> q c = false) -> ends_outside p x -> ends_outside q x.
Proof. intros Hpq H c rest Hc. apply Hpq. now apply (H c rest). Qed.

(** ** The cleaned text *)

Lemma cleaned_pad l t r :
  forallb isspace l = true -> forallb isspace r = true ->
  cleaned (l ++ t ++ r) = cleaned t.
Proof.
  intros Hl Hr. unfold cleaned, strip. now rewrite strip_while_pad.
Qed.

Lemma cleaned_blank t : forallb isspace t = true -> cleaned t = [].
Proof.
  intros H. unfold cleaned, strip. now rewrite strip_while_all_nil.
Qed.

(** ** The script, case by case *)

Lemma run_cases w :
  run w =
  match new_client w with
  | Raise _ => ([client_failure_banner], Stopped)
  | Return client =>
      if button_clicked w && truthy (user_input w) then
        if environ_has (environ w) (lit "GEMINI_API_KEY") then
          match analyze client (user_input w) with
          | (evs, Next _) => (page_header ++ evs, Finished)
          | (evs, Halt e) => (page_header ++ evs, e)
          end
        else (page_header ++ [api_key_banner], Finished)
      else (page_header, Finished)
  end.
Proof.
  unfold run, app.
  destruct (new_client w) as [client|e]; [|reflexivity].
  destruct (button_clicked w && truthy (user_input w));
    cbn [bind ret Script_monad emits].
  - destruct (environ_has (environ w) (lit "GEMINI_API_KEY")); cbn [negb].
    + destruct (analyze client (user_input w)) as [evs [[]|e]]; reflexivity.
    + reflexivity.
  - now rewrite app_nil_r.
Qed.

Lemma analyze_returns client finding_text v :
  get_risk_mapping client finding_text = Return v ->
  analyze client finding_text =
  (call_events finding_text ++ fst (present v), snd (present v)).
Proof.
  intros H. unfold analyze, get_risk_mapping in *.
  pose proof (get_risk_mapping_run_sent client finding_text) as Hs.
  destruct (get_risk_mapping_run client finding_text) as [o reqs].
  cbn [fst snd] in H, Hs. subst o reqs.
  unfold present, call_events.
  cbn [bind ret Script_monad emit emits eval map Datatypes.app fst snd].
  destruct (py_in (lit "error") v) as [[|]|e];
    cbn [bind ret Script_monad emit emits eval throw halt map Datatypes.app fst snd];
    [destruct (py_getitem v (lit "error")) as [m|e];
     cbn [bind ret Script_monad emit emits eval throw halt map Datatypes.app fst snd]
    |destruct (render_results v) as [evs r]; cbn [fst snd Datatypes.app]
    |];
  reflexivity.
Qed.

Lemma present_non_object v :
  (forall d, v <> VDict d) ->
  (exists e, present v = ([], Halt (Uncaught e)) /\ exn_type e = TypeError) \/
  (exists e, present v = ([st_subheader (check_mark :: lit " Analysis Results")],
                          Halt (Uncaught e)) /\ exn_type e = AttributeError).
Proof.
  intros Hv. unfold present.
  destruct v as [|b|z|f|s|xs|d]; try (left; eexists; split; reflexivity).
  - cbn [py_in eval ret bind Script_monad].
    destruct (str_contains s (lit "error"));
      [left|right]; eexists; split; reflexivity.
  - cbn [py_in eval ret bind Script_monad].
    destruct (existsb (value_is_str (lit "error")) xs);
      [left|right]; eexists; split; reflexivity.
  - now destruct (Hv d).
Qed.

Lemma present_shape v :
  existsb is_model_call (fst (present v)) = false /\
  (count_events is_st_error (fst (present v)) <= 1)%nat.
Proof.
  destruct v as [|b|z|f|s|xs|d]; try (split; [reflexivity | cbn; lia]).
  - unfold present. cbn [py_in eval ret bind Script_monad].
    destruct (str_contains s (lit "error")); split; try reflexivity; cbn; lia.
  - unfold present. cbn [py_in eval ret bind Script_monad].
    destruct (existsb (value_is_str (lit "error")) xs); split; try reflexivity; cbn; lia.
  - unfold present. cbn [py_in py_getitem eval ret bind Script_monad].
    unfold dict_contains.
    destruct (dict_lookup d (lit "error")) as [m|]; split; try reflexivity; cbn; lia.
Qed.

Lemma analyze_shape client finding_text :
  exists evs r,
    analyze client finding_text = (call_events finding_text ++ evs, r) /\
    existsb is_model_call evs = false /\
    (count_events is_st_error evs <= 1)%nat.
Proof.
  destruct (get_risk_mapping client finding_text) as [v|e] eqn:H.
  - rewrite (analyze_returns _ _ _ H).
    destruct (present_shape v) as [H1 H2]. now exists (fst (present v)), (snd (present v)).
  - rewrite (analyze_raises _ _ _ H). exists [], (Halt (Uncaught e)).
    rewrite app_nil_r. repeat split. cbn. lia.
Qed.

Lemma count_events_app p a b :
  count_events p (a ++ b) = (count_events p a + count_events p b)%nat.
Proof. unfold count_events. now rewrite filter_app, length_app. Qed.

Lemma count_events_none p evs : existsb p evs = false -> count_events p evs = 0%nat.
Proof.
  unfold count_events. induction evs as [|ev evs IH]; [reflexivity|].
  cbn [existsb filter]. destruct (p ev); [discriminate|]. exact IH.
Qed.

(** * Properties of the code beyond the specification *)

(** X1: when [genai.Client()] raises, the script shows the
    initialisation banner and is halted by [st.stop()]: nothing of the
    page is drawn and nothing is sent to the model, whatever the button,
    the input and the environment are. *)
Theorem client_failure_stops_the_script w e :
  new_client w = Raise e ->
  run w = ([client_failure_banner], Stopped) /\
  existsb is_model_call (fst (run w)) = false /\
  (forall ev, In ev page_header -> ~ In ev (fst (run w))).
Proof.
  intros H. rewrite run_cases, H. split; [reflexivity|]. split; [reflexivity|].
  intros ev Hev [Hin|[]]. subst ev.
  cbn in Hev. repeat (destruct Hev as [Hev|Hev]; [discriminate|]). exact Hev.
Qed.

Lemma client_failure_stops_the_script_witness :
  run failed_session = ([client_failure_banner], Stopped).
Proof.
  apply (client_failure_stops_the_script failed_session
           (Exn ValueError (lit "Missing key inputs argument!"))).
  reflexivity.
Defined.

(** X2: when the button was not pressed, or the text area is empty, the
    run draws the page and ends: no banner and no request to the model,
    and the environment is not consulted. *)
Theorem idle_run_shows_only_the_page w client :
  new_client w = Return client ->
  button_clicked w = false \/ user_input w = [] ->
  run w = (page_header, Finished) /\
  has_banner (fst (run w)) = false /\
  existsb is_model_call (fst (run w)) = false.
Proof.
  intros Hc Hidle. rewrite run_cases, Hc.
  assert (E : button_clicked w && truthy (user_input w) = false).
  { destruct Hidle as [-> | ->]; [reflexivity | apply andb_false_r]. }
  rewrite E. repeat split.
Qed.

Lemma idle_run_shows_only_the_page_witness :
  run (idle_session (text_client sample_json)) = (page_header, Finished).
Proof.
  apply (idle_run_shows_only_the_page (idle_session (text_client sample_json))
           (text_client sample_json)).
  - reflexivity.
  - right. reflexivity.
Defined.

(** X3: [get_risk_mapping] raises exactly when it obtains no text from
    the model: the call raises, or the answer has no text part, so that
    [response.text] is [None].  What it raises is then the
    [UnboundLocalError] of the handler, never the exception of the [try]
    block.  Whenever the answer has a text, whatever the text, a value is
    returned. *)
Theorem raises_exactly_when_no_text_is_obtained client finding_text :
  (forall e, get_risk_mapping client finding_text = Raise e ->
             e = unbound_local "raw_text" /\
             (answers_without_text client finding_text \/
              exists e', answers client finding_text (Raise e'))) /\
  (forall resp, answers client finding_text (Return resp) ->
                exists v, get_risk_mapping client finding_text = Return v) /\
  (forall e', answers client finding_text (Raise e') ->
              get_risk_mapping client finding_text = Raise (unbound_local "raw_text")) /\
  (answers_without_text client finding_text ->
   get_risk_mapping client finding_text = Raise (unbound_local "raw_text")).
Proof.
  split; [|split; [|split]].
  - intros e H.
    destruct (generate_content client (risk_request (MASTER_PROMPT finding_text)))
      as [[resp|]|e'] eqn:Ha.
    + rewrite (get_risk_mapping_answered client finding_text resp Ha) in H.
      destruct (json_loads (cleaned (text resp))); discriminate.
    + rewrite (get_risk_mapping_no_text client finding_text Ha) in H.
      injection H as <-. split; [reflexivity|]. now left.
    + rewrite (get_risk_mapping_call_raises client finding_text e' Ha) in H.
      injection H as <-. split; [reflexivity|]. right. now exists e'.
  - intros resp Ha. rewrite (get_risk_mapping_answered client finding_text resp Ha).
    destruct (json_loads (cleaned (text resp))); eexists; reflexivity.
  - intros e' Ha. exact (get_risk_mapping_call_raises client finding_text e' Ha).
  - exact (get_risk_mapping_no_text client finding_text).
Qed.

(** X4: white space around the answer of the model, in the sense of
    [str.strip()] (which includes characters that JSON does not accept as
    white space), never changes the result, be it a record or an error
    descriptor. *)
Theorem surrounding_whitespace_is_ignored client client' finding_text resp resp' l r :
  answers client finding_text (Return resp) ->
  answers client' finding_text (Return resp') ->
  text resp = l ++ text resp' ++ r ->
  forallb isspace l = true ->
  forallb isspace r = true ->
  get_risk_mapping client finding_text = get_risk_mapping client' finding_text.
Proof.
  intros Ha Ha' Et Hl Hr.
  rewrite (get_risk_mapping_answered _ _ _ Ha), (get_risk_mapping_answered _ _ _ Ha').
  rewrite Et, (cleaned_pad _ _ _ Hl Hr). reflexivity.
Qed.

Lemma surrounding_whitespace_is_ignored_witness :
  get_risk_mapping (text_client ([160; 32] ++ sample_json ++ [newline; 8232])) sample_finding
  = get_risk_mapping (text_client sample_json) sample_finding.
Proof.
  apply (surrounding_whitespace_is_ignored
           (text_client ([160; 32] ++ sample_json ++ [newline; 8232]))
           (text_client sample_json) sample_finding
           {| text := [160; 32] ++ sample_json ++ [newline; 8232] |}
           {| text := sample_json |} [160; 32] [newline; 8232]);
    reflexivity.
Defined.

(** X5: an answer that is empty or holds only white space yields the
    error descriptor with the decoder's message for an empty document and
    an empty excerpt. *)
Theorem blank_answer_is_a_parse_failure client finding_text resp :
  answers client finding_text (Return resp) ->
  forallb isspace (text resp) = true ->
  get_risk_mapping client finding_text
  = Return (error_descriptor (lit "Expecting value: line 1 column 1 (char 0)") []).
Proof.
  intros Ha Hb.
  rewrite (get_risk_mapping_answered _ _ _ Ha), (cleaned_blank _ Hb).
  reflexivity.
Qed.

Lemma blank_answer_is_a_parse_failure_witness :
  get_risk_mapping (text_client blank_answer) sample_finding
  = Return (error_descriptor (lit "Expecting value: line 1 column 1 (char 0)") []).
Proof.
  apply (blank_answer_is_a_parse_failure (text_client blank_answer) sample_finding
           {| text := blank_answer |}); reflexivity.
Defined.

(** X6: the text handed to [json.loads] never starts or ends with a
    character that the arm taken strips: a fence character (back-quote,
    j, s, o, n) in the tagged arm, a back-quote in the plain arm, white
    space when no fence was found. *)
Theorem cleaned_text_has_clean_ends rawText :
  match fence_branch_of (strip rawText) with
  | TaggedFence => ends_outside (mem_char json_fence) (cleaned rawText)
  | PlainFence => ends_outside (mem_char plain_fence) (cleaned rawText)
  | NoFence => ends_outside isspace (cleaned rawText)
  end.
Proof.
  unfold cleaned, strip_fences, strip_chars, strip.
  destruct (fence_branch_of (strip_while isspace rawText)).
  - rewrite ends_outside_strip_id.
    + apply strip_while_ends.
    + apply (ends_outside_weaken (mem_char json_fence)); [apply mem_plain_fence_json|].
      apply strip_while_ends.
  - apply strip_while_ends.
  - apply strip_while_ends.
Qed.

(** X7: when the model answers with a text that the decoder rejects, the
    run shows the page, makes the one call, shows one banner with the
    parsing-error message built from the cleaned text, and ends
    normally. *)
Theorem parse_failure_is_shown_as_banner w client resp e :
  new_client w = Return client ->
  button_clicked w = true ->
  user_input w <> [] ->
  environ_has (environ w) (lit "GEMINI_API_KEY") = true ->
  answers client (user_input w) (Return resp) ->
  json_loads (cleaned (text resp)) = Raise e ->
  run w = (page_header ++ call_events (user_input w)
             ++ [parse_failure_banner e (cleaned (text resp))],
           Finished).
Proof.
  intros Hc Hb Hi He Ha Hj.
  rewrite (run_triggered _ _ Hc Hb Hi), He.
  pose proof (get_risk_mapping_answered _ _ _ Ha) as Hm. rewrite Hj in Hm.
  unfold error_descriptor in Hm.
  rewrite (analyze_dict _ _ _ Hm). reflexivity.
Qed.

Lemma parse_failure_is_shown_as_banner_witness :
  run (sample_session (text_client fenced_apology) key_present)
  = (page_header ++ call_events sample_finding
       ++ [parse_failure_banner
             (json_decode_error "Expecting value" (cleaned fenced_apology) 1)
             (cleaned fenced_apology)],
     Finished).
Proof.
  apply (parse_failure_is_shown_as_banner
           (sample_session (text_client fenced_apology) key_present)
           (text_client fenced_apology) {| text := fenced_apology |}).
  - reflexivity.
  - reflexivity.
  - discriminate.
  - reflexivity.
  - reflexivity.
  - vm_compute; reflexivity.
Defined.

(** X8: when the call to the model raises, the run does not show any
    banner: after the spinner is left, the [UnboundLocalError] of the
    handler leaves the script. *)
Theorem model_failure_ends_the_run w client e :
  new_client w = Return client ->
  button_clicked w = true ->
  user_input w <> [] ->
  environ_has (environ w) (lit "GEMINI_API_KEY") = true ->
  answers client (user_input w) (Raise e) ->
  run w = (page_header ++ call_events (user_input w),
           Uncaught (unbound_local "raw_text")) /\
  has_banner (fst (run w)) = false.
Proof.
  intros Hc Hb Hi He Ha.
  rewrite (run_triggered _ _ Hc Hb Hi), He.
  rewrite (analyze_raises _ _ _ (get_risk_mapping_call_raises _ _ _ Ha)).
  split; reflexivity.
Qed.

Lemma model_failure_ends_the_run_witness :
  run (sample_session (stub_client (Raise (Exn APIError (lit "503 UNAVAILABLE")))) key_present)
  = (page_header ++ call_events sample_finding, Uncaught (unbound_local "raw_text")).
Proof.
  apply (model_failure_ends_the_run
           (sample_session (stub_client (Raise (Exn APIError (lit "503 UNAVAILABLE")))) key_present)
           (stub_client (Raise (Exn APIError (lit "503 UNAVAILABLE"))))
           (Exn APIError (lit "503 UNAVAILABLE"))).
  - reflexivity.
  - reflexivity.
  - discriminate.
  - reflexivity.
  - reflexivity.
Defined.

(** X9: when [get_risk_mapping] returns a JSON value that is not an
    object (a list, a string, a number, a boolean or null), the script
    does not finish: either the test for the key ["error"] or the
    subscript raises [TypeError], or the sub-header is drawn and the
    first [.get] raises [AttributeError]. *)
Theorem non_object_answer_ends_the_run w client v :
  new_client w = Return client ->
  button_clicked w = true ->
  user_input w <> [] ->
  environ_has (environ w) (lit "GEMINI_API_KEY") = true ->
  get_risk_mapping client (user_input w) = Return v ->
  (forall d, v <> VDict d) ->
  exists evs e,
    run w = (page_header ++ call_events (user_input w) ++ evs, Uncaught e) /\
    ((evs = [] /\ exn_type e = TypeError) \/
     (evs = [st_subheader (check_mark :: lit " Analysis Results")] /\
      exn_type e = AttributeError)).
Proof.
  intros Hc Hb Hi He Hm Hv.
  rewrite (run_triggered _ _ Hc Hb Hi), He, (analyze_returns _ _ _ Hm).
  destruct (present_non_object v Hv) as [(e & -> & Ht) | (e & -> & Ht)];
    cbn [fst snd]; eexists; exists e; (split; [reflexivity|]);
    [left | right]; now split.
Qed.

Lemma non_object_answer_ends_the_run_witness :
  exists evs e,
    run (sample_session (text_client (lit "[]")) key_present)
    = (page_header ++ call_events sample_finding ++ evs, Uncaught e) /\
    ((evs = [] /\ exn_type e = TypeError) \/
     (evs = [st_subheader (check_mark :: lit " Analysis Results")] /\
      exn_type e = AttributeError)).
Proof.
  apply (non_object_answer_ends_the_run
           (sample_session (text_client (lit "[]")) key_present)
           (text_client (lit "[]")) (VList [])).
  - reflexivity.
  - reflexivity.
  - discriminate.
  - reflexivity.
  - vm_compute; reflexivity.
  - discriminate.
Defined.

(** X10: a run sends one request to the model when the client was
    created, the button was pressed on a non-empty text and the key is in
    the environment, and none otherwise; a request that is sent is the
    one built from the text of the text area. *)
Theorem one_request_per_analysis w :
  count_events is_model_call (fst (run w)) = (if analysis_runs w then 1 else 0)%nat /\
  forall req, In (model_call req) (fst (run w)) ->
              req = risk_request (MASTER_PROMPT (user_input w)).
Proof.
  rewrite run_cases. unfold analysis_runs.
  destruct (new_client w) as [client|e].
  2:{ split; [reflexivity|]. intros req [H|[]]. discriminate. }
  destruct (button_clicked w && truthy (user_input w)); cbn [andb].
  2:{ split; [reflexivity|]. intros req H. cbn in H.
      repeat (destruct H as [H|H]; [discriminate|]). destruct H. }
  destruct (environ_has (environ w) (lit "GEMINI_API_KEY")).
  2:{ split; [reflexivity|]. intros req H. cbn in H.
      repeat (destruct H as [H|H]; [discriminate|]). destruct H. }
  destruct (analyze_shape client (user_input w)) as (evs & r & -> & Hn & _).
  destruct r as [[]|e0]; cbn [fst] in *.
  all: split;
    [ rewrite !count_events_app, (count_events_none _ _ Hn); reflexivity
    | intros req H; apply in_app_or in H as [H|H];
      [ cbn in H; repeat (destruct H as [H|H]; [discriminate|]); destruct H
      | apply in_app_or in H as [H|H];
        [ cbn in H; destruct H as [H|[H|[H|[]]]]; try discriminate; now injection H
        | exfalso; rewrite <- not_true_iff_false in Hn; apply Hn;
          apply existsb_exists; now exists (model_call req) ] ] ].
Qed.

(** X11: a run shows at most one error banner. *)
Theorem at_most_one_banner w :
  (count_events is_st_error (fst (run w)) <= 1)%nat.
Proof.
  rewrite run_cases.
  destruct (new_client w) as [client|e]; [|cbn; lia].
  destruct (button_clicked w && truthy (user_input w)); [|cbn; lia].
  destruct (environ_has (environ w) (lit "GEMINI_API_KEY")); [|cbn; lia].
  destruct (analyze_shape client (user_input w)) as (evs & r & -> & _ & Hb).
  destruct r as [[]|e0]; cbn [fst]; rewrite !count_events_app;
    change (count_events is_st_error page_header) with 0%nat;
    change (count_events is_st_error (call_events (user_input w))) with 0%nat; lia.
Qed.

(** X12: the prompt determines the finding: two findings give the same
    prompt only if they are equal. *)
Theorem prompt_determines_the_finding finding_text finding_text' :
  MASTER_PROMPT finding_text = MASTER_PROMPT finding_text' <->
  finding_text = finding_text'.
Proof.
  split; [|now intros ->].
  unfold MASTER_PROMPT. intros H.
  repeat apply app_inv_head in H.
  now apply app_inv_tail in H.
Qed.

(** X13: the values handed to the widgets for a record, directly or
    through an f-string, are those read for the six required keys of the
    schema: two records give the same widget calls, value for value,
    exactly when [.get(key, "N/A")] agrees on the six keys. *)
Theorem display_reads_exactly_the_required_keys d d' :
  render_results (VDict d) = render_results (VDict d') <->
  forall k, In k (schema_required RISK_SCHEMA) -> dict_get d k NA = dict_get d' k NA.
Proof.
  rewrite !render_results_dict. unfold results_events. split.
  - intros H k Hk. injection H as H1 H2 H3 H4 H5 H6.
    cbn in Hk. destruct Hk as [<-|[<-|[<-|[<-|[<-|[<-|[]]]]]]]; assumption.
  - intros H.
    rewrite (H (lit "finding_summary")), (H (lit "mitre_tactic")),
      (H (lit "mitre_technique")), (H (lit "nist_function")),
      (H (lit "nist_category")), (H (lit "remediation_suggestion"));
      try reflexivity; cbn; tauto.
Qed.

(** ** Fence characters as a set *)

Lemma fence_char_not_space c : mem_char json_fence c = true -> isspace c = false.
Proof.
  rewrite json_fence_chars. unfold mem_char. cbn [existsb]. intros H.
  repeat (apply orb_true_iff in H as [H|H]; [apply N.eqb_eq in H; now subst c|]).
  discriminate.
Qed.

Lemma mem_json_fence_plain c :
  mem_char plain_fence c = true -> mem_char json_fence c = true.
Proof.
  destruct (mem_char json_fence c) eqn:E; [reflexivity|].
  now rewrite (mem_plain_fence_json c E).
Qed.

Lemma startswith_app_l a b p : startswith a p = true -> startswith (a ++ b) p = true.
Proof.
  revert a. induction p as [|x p IH]; intros a; [destruct (a ++ b); reflexivity|].
  destruct a as [|c a]; [discriminate|].
  cbn [Datatypes.app startswith]. intros H. apply andb_true_iff in H as [Hc Hp].
  now rewrite Hc, IH.
Qed.

Lemma cleaned_fence_set open core close :
  clean_ends (mem_char json_fence) core ->
  fence_noise json_fence open close \/ fence_noise plain_fence open close ->
  strip (open ++ core ++ close) = open ++ core ++ close ->
  cleaned (open ++ core ++ close) = core.
Proof.
  intros Hcore Hnoise Hstay. unfold cleaned. rewrite Hstay.
  assert (Htagged :
            strip_chars (strip_chars (open ++ core ++ close) json_fence) plain_fence = core).
  { unfold strip_chars. rewrite strip_while_clean.
    - apply strip_while_clean_id. now apply clean_ends_plain_fence.
    - assumption.
    - destruct Hnoise as [(_ & H & _) | (_ & H & _)]; [assumption|].
      revert H. apply forallb_impl, mem_json_fence_plain.
    - destruct Hnoise as [(_ & _ & H) | (_ & _ & H)]; [assumption|].
      revert H. apply forallb_impl, mem_json_fence_plain. }
  unfold strip_fences, fence_branch_of.
  destruct (startswith (open ++ core ++ close) json_fence) eqn:Ej; [exact Htagged|].
  destruct Hnoise as [(Hs & _ & _) | (Hs & Ho & Hc)].
  - now rewrite (startswith_app_l _ (core ++ close) _ Hs) in Ej.
  - rewrite (startswith_app_l _ (core ++ close) _ Hs).
    unfold strip_chars. apply strip_while_clean; try assumption.
    now apply clean_ends_plain_fence.
Qed.

Lemma fence_noise_head fence open close :
  fence = json_fence \/ fence = plain_fence ->
  fence_noise fence open close -> exists open', open = 96 :: open'.
Proof.
  intros Hf (Hs & _ & _).
  destruct open as [|c open'].
  - destruct Hf as [-> | ->]; discriminate.
  - exists open'. f_equal.
    destruct Hf as [-> | ->]; rewrite ?json_fence_chars, ?plain_fence_chars in Hs;
      cbn [startswith] in Hs; apply andb_true_iff in Hs as [Hs _];
      now apply N.eqb_eq in Hs.
Qed.

Lemma fence_noise_close_not_space fence open close c :
  fence = json_fence \/ fence = plain_fence ->
  fence_noise fence open close -> In c close -> isspace c = false.
Proof.
  intros Hf (_ & _ & Hc) Hin.
  rewrite forallb_forall in Hc. specialize (Hc c Hin).
  apply fence_char_not_space.
  destruct Hf as [-> | ->]; [assumption | now apply mem_json_fence_plain].
Qed.

(** X14: the fences are removed as sets of characters: a valid JSON
    object preceded by a run of fence characters that begins with the
    fence, and followed by any run of fence characters (none, when the
    closing fence is missing), is decoded to the same record. *)
Theorem fence_characters_are_stripped_as_a_set finding_text J d l r open close :
  json_loads J = Return (VDict d) ->
  forallb is_json_ws l = true ->
  forallb is_json_ws r = true ->
  fence_noise json_fence open close \/ fence_noise plain_fence open close ->
  get_risk_mapping (text_client (open ++ l ++ J ++ r ++ close)) finding_text
  = Return (VDict d).
Proof.
  intros Hj Hl Hr Hnoise.
  destruct (json_loads_inv _ _ Hj) as (l0 & pre & r0 & Hdoc).
  pose proof (json_loads_core _ _ _ _ _ Hdoc) as Hpre.
  destruct Hdoc as (-> & Hl0 & Hr0 & _ & Hd & _).
  destruct (Hd d eq_refl) as (body & ->).
  assert (Hopen : exists open', open = 96 :: open').
  { destruct Hnoise as [H|H];
      [apply (fence_noise_head json_fence open close)
      |apply (fence_noise_head plain_fence open close)]; auto. }
  destruct Hopen as (open' & Eo).
  assert (Hll : forallb is_json_ws (l ++ l0) = true)
    by (rewrite forallb_app; now rewrite Hl, Hl0).
  assert (Hrr : forallb is_json_ws (r0 ++ r) = true)
    by (rewrite forallb_app; now rewrite Hr0, Hr).
  rewrite get_risk_mapping_text_client.
  destruct close as [|b close'] using rev_ind.
  - (* no closing fence: the trailing whitespace goes with [strip()] *)
    replace (open ++ l ++ (l0 ++ (123 :: body ++ [125]) ++ r0) ++ r ++ [])
      with ([] ++ (open ++ ((l ++ l0) ++ (123 :: body ++ [125]) ++ ([] ++ [])) ++ [])
               ++ (r0 ++ r))
      by (cbn [Datatypes.app]; rewrite ?app_nil_r; now norm_app).
    rewrite cleaned_pad;
      [|reflexivity | revert Hrr; apply forallb_impl, json_ws_isspace].
    rewrite cleaned_fence_set.
    + change (@nil N ++ []) with (@nil N).
      now rewrite (json_loads_pad _ _ (l ++ l0) [] Hpre Hll eq_refl).
    + now apply padded_object_clean.
    + assumption.
    + apply strip_while_clean_id.
      exists 96, (open' ++ (l ++ l0) ++ 123 :: body), 125.
      split; [|split; reflexivity].
      rewrite Eo. cbn [Datatypes.app]. rewrite ?app_nil_r. now norm_app.
  - clear IHclose'.
    replace (open ++ l ++ (l0 ++ (123 :: body ++ [125]) ++ r0) ++ r ++ close' ++ [b])
      with (open ++ ((l ++ l0) ++ (123 :: body ++ [125]) ++ (r0 ++ r)) ++ (close' ++ [b]))
      by now norm_app.
    rewrite cleaned_fence_set.
    + replace ((l ++ l0) ++ (123 :: body ++ [125]) ++ r0 ++ r)
        with (l ++ (l0 ++ (123 :: body ++ [125]) ++ r0) ++ r)
        by now norm_app.
      now rewrite (json_loads_pad _ _ l r Hj Hl Hr).
    + now apply padded_object_clean.
    + assumption.
    + apply strip_while_clean_id.
      exists 96, (open' ++ ((l ++ l0) ++ (123 :: body ++ [125]) ++ (r0 ++ r)) ++ close'), b.
      split; [rewrite Eo; cbn [Datatypes.app]; now norm_app|].
      split; [reflexivity|].
      destruct Hnoise as [H|H];
        [apply (fence_noise_close_not_space json_fence open (close' ++ [b]))
        |apply (fence_noise_close_not_space plain_fence open (close' ++ [b]))];
        auto; apply in_or_app; right; now left.
Qed.

Lemma fence_characters_are_stripped_as_a_set_witness :
  get_risk_mapping (text_client (json_fence ++ [newline] ++ sample_json ++ [] ++ []))
                   sample_finding
  = Return (VDict sample_mapping) /\
  get_risk_mapping
    (text_client ((plain_fence ++ [96]) ++ [] ++ sample_json ++ [newline] ++ [96; 96]))
    sample_finding
  = Return (VDict sample_mapping).
Proof.
  split.
  - apply (fence_characters_are_stripped_as_a_set
             sample_finding sample_json sample_mapping [newline] [] json_fence []).
    + vm_compute; reflexivity.
    + reflexivity.
    + reflexivity.
    + left. repeat split.
  - apply (fence_characters_are_stripped_as_a_set
             sample_finding sample_json sample_mapping [] [newline]
             (plain_fence ++ [96]) [96; 96]).
    + vm_compute; reflexivity.
    + reflexivity.
    + reflexivity.
    + right. repeat split.
Defined.

(** ** A closing fence on its own *)

Lemma json_loads_extra_data v pre ws c t :
  (exists c0 pre', pre = c0 :: pre' /\ is_json_ws c0 = false) ->
  (forall g t', (length pre <= g)%nat -> number_safe t' ->
                scan_once g (pre ++ t') = Scanned v t') ->
  forallb is_json_ws ws = true ->
  is_json_ws c = false -> number_tail c = false ->
  json_loads (pre ++ ws ++ c :: t)
  = Raise (json_decode_error "Extra data" (pre ++ ws ++ c :: t)
             (length (pre ++ ws ++ c :: t) - length (c :: t))).
Proof.
  intros (c0 & pre' & -> & Hc0) Hext Hws Hc Hn.
  unfold json_loads.
  assert (Hbom : startswith ((c0 :: pre') ++ ws ++ c :: t) [byte_order_mark] = false).
  { cbn [Datatypes.app]. rewrite startswith_bom_cons.
    destruct (c0 =? byte_order_mark) eqn:Eb; [|reflexivity].
    apply N.eqb_eq in Eb. subst c0. exfalso.
    specialize (Hext (length (byte_order_mark :: pre')) [] (le_n _) I).
    cbn [Datatypes.app] in Hext. now apply scan_once_not_bom in Hext. }
  rewrite Hbom.
  assert (Hskip : skip_ws ((c0 :: pre') ++ ws ++ c :: t) = (c0 :: pre') ++ ws ++ c :: t).
  { cbn [Datatypes.app]. unfold skip_ws. now apply lstrip_while_stop. }
  rewrite Hskip, Hext.
  - now rewrite (skip_ws_app_stop ws c t Hws Hc).
  - rewrite length_app. lia.
  - now apply number_safe_ws_app.
Qed.

(** X15: a closing fence without an opening one is not removed: for a
    valid JSON object followed by three back-quotes the decoder receives
    the fence as well, and the result is the error descriptor that
    reports extra data at the position of the fence. *)
Theorem closing_fence_alone_is_a_parse_failure finding_text J d :
  json_loads J = Return (VDict d) ->
  let sent_to_decoder := strip (J ++ plain_fence) in
  cleaned (J ++ plain_fence) = sent_to_decoder /\
  get_risk_mapping (text_client (J ++ plain_fence)) finding_text
  = Return (error_descriptor
              (exn_str (json_decode_error "Extra data" sent_to_decoder
                          (length sent_to_decoder - 3)))
              (slice_to 50 sent_to_decoder)).
Proof.
  intros Hj.
  destruct (json_loads_inv _ _ Hj) as (l0 & pre & r0 & -> & Hl0 & Hr0 & Hc & Hd & Hext).
  destruct (Hd d eq_refl) as (body & ->).
  assert (Es : strip ((l0 ++ (123 :: body ++ [125]) ++ r0) ++ plain_fence)
               = (123 :: body ++ [125]) ++ r0 ++ 96 :: [96; 96]).
  { unfold strip.
    replace ((l0 ++ (123 :: body ++ [125]) ++ r0) ++ plain_fence)
      with (l0 ++ (123 :: (body ++ [125] ++ r0 ++ [96; 96]) ++ [96]) ++ [])
      by (rewrite plain_fence_chars, app_nil_r; cbn [Datatypes.app]; now norm_app).
    rewrite strip_while_core; try reflexivity.
    - cbn [Datatypes.app]. now norm_app.
    - revert Hl0. apply forallb_impl, json_ws_isspace. }
  cbn zeta. rewrite get_risk_mapping_text_client.
  assert (Ec : cleaned ((l0 ++ (123 :: body ++ [125]) ++ r0) ++ plain_fence)
               = strip ((l0 ++ (123 :: body ++ [125]) ++ r0) ++ plain_fence)).
  { unfold cleaned, strip_fences. rewrite Es.
    cbn [Datatypes.app]. now rewrite fence_branch_no_fence. }
  rewrite Ec, Es. split; [reflexivity|].
  now rewrite (json_loads_extra_data (VDict d) (123 :: body ++ [125]) r0 96 [96; 96]).
Qed.

Lemma closing_fence_alone_is_a_parse_failure_witness :
  get_risk_mapping (text_client (sample_json ++ plain_fence)) sample_finding
  = Return (error_descriptor
              (exn_str (json_decode_error "Extra data" (strip (sample_json ++ plain_fence))
                          (length (strip (sample_json ++ plain_fence)) - 3)))
              (slice_to 50 (strip (sample_json ++ plain_fence)))).
Proof.
  apply (closing_fence_alone_is_a_parse_failure sample_finding sample_json sample_mapping).
  vm_compute; reflexivity.
Defined.

(** ** An answer without a text part *)

(** X16: when the model returns an answer without a text part, so that
    [response.text] is [None], the run ends like a failed call: the
    request is sent, the spinner is left, and the [UnboundLocalError] of
    the handler leaves the script; no banner is shown. *)
Theorem textless_answer_ends_the_run w client :
  new_client w = Return client ->
  button_clicked w = true ->
  user_input w <> [] ->
  environ_has (environ w) (lit "GEMINI_API_KEY") = true ->
  answers_without_text client (user_input w) ->
  get_risk_mapping client (user_input w) = Raise (unbound_local "raw_text") /\
  run w = (page_header ++ call_events (user_input w),
           Uncaught (unbound_local "raw_text")) /\
  has_banner (fst (run w)) = false.
Proof.
  intros Hc Hb Hi He Ha.
  pose proof (get_risk_mapping_no_text _ _ Ha) as Hm.
  rewrite (run_triggered _ _ Hc Hb Hi), He, (analyze_raises _ _ _ Hm).
  repeat split. exact Hm.
Qed.

Lemma textless_answer_ends_the_run_witness :
  run (sample_session textless_client key_present)
  = (page_header ++ call_events sample_finding, Uncaught (unbound_local "raw_text")).
Proof.
  apply (textless_answer_ends_the_run
           (sample_session textless_client key_present) textless_client).
  - reflexivity.
  - reflexivity.
  - discriminate.
  - reflexivity.
  - reflexivity.
Defined.
